(** * BPPI content script: mention links replaced by inline avatars

    A shallow embedding of [src/content.js].  The script keeps two pieces of
    module state, [profileCache] (a [Map]) and [processedLinks] (a
    [WeakSet]), classifies anchors by their text and ancestor chain, swaps a
    placeholder image into every in-post mention and resolves it through the
    public profile endpoint.  Asynchronous functions are cut at their
    [await]s: the part that runs synchronously when the function is called,
    and the part that runs once the awaited promise settles, with what the
    host answered passed in as an argument. *)

From Stdlib Require Import ZArith Lia Bool Ascii Sorted.
From stdpp Require Import base option list gmap strings.

Local Open Scope Z_scope.
Local Open Scope nat_scope.
Set Warnings "-register-all".
#[local] Arguments String.append !_ _ / : simpl nomatch.

(** ** JavaScript strings and values *)

Module Js.

(** Characters are code units below 256; [String.prototype.trim] strips
    the white space and line terminators among them. *)
Definition isWhiteSpace (c : ascii) : bool :=
  match nat_of_ascii c with
  | 9 | 10 | 11 | 12 | 13 | 32 | 160 => true
  | _ => false
  end.

Fixpoint trimStart (s : string) : string :=
  match s with
  | EmptyString => EmptyString
  | String c r => if isWhiteSpace c then trimStart r else s
  end.

Fixpoint trimEnd (s : string) : string :=
  match s with
  | EmptyString => EmptyString
  | String c r =>
      match trimEnd r with
      | EmptyString => if isWhiteSpace c then EmptyString else String c EmptyString
      | r' => String c r'
      end
  end.

Definition trim (s : string) : string := trimEnd (trimStart s).

Fixpoint startsWith (p s : string) : bool :=
  match p, s with
  | EmptyString, _ => true
  | String a p', String b s' => if Ascii.eqb a b then startsWith p' s' else false
  | String _ _, EmptyString => false
  end.

Fixpoint includes (p s : string) : bool :=
  startsWith p s ||
  match s with
  | EmptyString => false
  | String _ r => includes p r
  end.

Fixpoint drop (n : nat) (s : string) : string :=
  match n, s with
  | O, _ => s
  | S n', String _ r => drop n' r
  | S _, EmptyString => EmptyString
  end.

Definition isEmpty (s : string) : bool :=
  match s with EmptyString => true | String _ _ => false end.

(** The values [response.json()] can produce.  A number is carried as its
    decimal rendering, the string [String(n)] yields; zero (of either
    sign) renders as ["0"].  An object lists its members, each name once.
    [undefined] is the [None] of [option value]. *)
Inductive value : Type :=
| JNull
| JBool (b : bool)
| JNum (shown : string)
| JStr (s : string)
| JArr (items : list value)
| JObj (members : list (string * value)).

(** ToBoolean. *)
Definition truthy (v : value) : bool :=
  match v with
  | JNull => false
  | JBool b => b
  | JNum shown => negb (String.eqb shown "0")
  | JStr s => negb (isEmpty s)
  | JArr _ | JObj _ => true
  end.

Definition truthy_opt (o : option value) : bool :=
  match o with Some v => truthy v | None => false end.

Fixpoint assoc {A : Type} (k : string) (l : list (string * A)) : option A :=
  match l with
  | [] => None
  | (k', a) :: rest => if String.eqb k k' then Some a else assoc k rest
  end.

(** Property read [v.name] for a name that no prototype defines (the
    script reads [avatar] and [displayName] only): the own member of an
    object, [undefined] on anything else.  Reading a property of [null]
    throws; the script guards that read by [profile &&]. *)
Definition getMember (name : string) (v : value) : option value :=
  match v with
  | JObj members => assoc name members
  | _ => None
  end.

(** [a || b] with [b] a string. *)
Definition orElse (a : option value) (b : string) : value :=
  match a with
  | Some v => if truthy v then v else JStr b
  | None => JStr b
  end.

(** ToString, as a template literal or the [src] setter applies it;
    [None] is the TypeError raised for an object whose own [toString]
    member shadows the inherited method (a parsed member is never
    callable, and the inherited [valueOf] returns the object itself). *)
Fixpoint toString (v : value) : option string :=
  match v with
  | JNull => Some "null"
  | JBool true => Some "true"
  | JBool false => Some "false"
  | JNum shown => Some shown
  | JStr s => Some s
  | JArr items =>
      (fix join (l : list value) : option string :=
         match l with
         | [] => Some ""
         | x :: rest =>
             match (match x with JNull => Some "" | _ => toString x end) with
             | None => None
             | Some sx =>
                 match rest with
                 | [] => Some sx
                 | _ :: _ =>
                     match join rest with
                     | None => None
                     | Some sr => Some (sx +:+ "," +:+ sr)
                     end
                 end
             end
         end) items
  | JObj members =>
      match assoc "toString" members with
      | Some _ => None
      | None => Some "[object Object]"
      end
  end.

(** What a statement can do: finish with a value or throw. *)
Inductive error : Type := TypeError | SyntaxError.

Inductive completion (A : Type) : Type :=
| Normal (a : A)
| Throw (e : error).
Arguments Normal {A} a.
Arguments Throw {A} e.

End Js.
Export Js.

(** ** The page: module state and the part of the host it touches *)

Module Dom.

Record element : Type := Element {
  tagName : string;
  attributes : list (string * string)
}.

(** The image the script creates.  [onerror] holds the text its handler
    captured ([originalText]) once the handler is installed. *)
Record img : Type := Img {
  classList : list string;
  alt : string;
  title : string;
  src : option string;
  onload : bool;
  onerror : option string
}.

(** What an anchor holds: the host's rendering, known by its
    [textContent], or the image swapped in by the script. *)
Inductive content : Type :=
| Text (s : string)
| Avatar (i : img).

(** An anchor: its attributes, its children, and the elements above it,
    parent first, up to the root element. *)
Record link : Type := Link {
  attrs : list (string * string);
  children : content;
  ancestors : list element
}.

Definition self (k : link) : element := Element "a" (attrs k).

Definition getAttribute (name : string) (k : link) : option string :=
  assoc name (attrs k).

Definition textContent (k : link) : string :=
  match children k with
  | Text s => s
  | Avatar _ => ""
  end.

(** The selectors the script uses. *)
Inductive selector : Type :=
| Tag (t : string)
| AttrIs (name v : string)
| AttrStarts (name v : string)
| AttrIncludes (name v : string)
| Both (s1 s2 : selector).

Fixpoint matches (sel : selector) (e : element) : bool :=
  match sel with
  | Tag t => String.eqb (tagName e) t
  | AttrIs name v =>
      match assoc name (attributes e) with
      | Some a => String.eqb a v
      | None => false
      end
  | AttrStarts name v =>
      match assoc name (attributes e) with
      | Some a => negb (isEmpty v) && startsWith v a
      | None => false
      end
  | AttrIncludes name v =>
      match assoc name (attributes e) with
      | Some a => negb (isEmpty v) && includes v a
      | None => false
      end
  | Both s1 s2 => matches s1 e && matches s2 e
  end.

(** [el.closest(sel)] over the chain that starts at [el]: the first
    match, returned with the elements above it. *)
Fixpoint closest_in (sel : selector) (chain : list element) : option (list element) :=
  match chain with
  | [] => None
  | e :: up => if matches sel e then Some chain else closest_in sel up
  end.

Definition closest (sel : selector) (k : link) : option (list element) :=
  closest_in sel (self k :: ancestors k).

Definition parentElement (at_ : list element) : option element :=
  match at_ with
  | _ :: p :: _ => Some p
  | _ => None
  end.

Definition found {A : Type} (o : option A) : bool :=
  match o with Some _ => true | None => false end.

End Dom.
Export Dom.

(** The whole state.  A link is named by its position in [document],
    which lists the anchors in document order; [network] collects the
    handles a request was sent for and [console] those warned about. *)
Record page : Type := Page {
  profileCache : gmap string value;
  processedLinks : gset nat;
  document : list link;
  network : list string;
  console : list string
}.

Definition set_profileCache (f : gmap string value → gmap string value) (σ : page) : page :=
  Page (f (profileCache σ)) (processedLinks σ) (document σ) (network σ) (console σ).
Definition set_processedLinks (f : gset nat → gset nat) (σ : page) : page :=
  Page (profileCache σ) (f (processedLinks σ)) (document σ) (network σ) (console σ).
Definition set_document (f : list link → list link) (σ : page) : page :=
  Page (profileCache σ) (processedLinks σ) (f (document σ)) (network σ) (console σ).
Definition set_network (f : list string → list string) (σ : page) : page :=
  Page (profileCache σ) (processedLinks σ) (document σ) (f (network σ)) (console σ).
Definition set_console (f : list string → list string) (σ : page) : page :=
  Page (profileCache σ) (processedLinks σ) (document σ) (network σ) (f (console σ)).

(** Statements over the page that may throw. *)
Definition M (A : Type) : Type := page → completion A * page.

Definition ret {A : Type} (a : A) : M A := λ σ, (Normal a, σ).
Definition throw {A : Type} (e : error) : M A := λ σ, (Throw e, σ).
Definition bind {A B : Type} (m : M A) (f : A → M B) : M B :=
  λ σ, match m σ with
       | (Normal a, σ') => f a σ'
       | (Throw e, σ') => (Throw e, σ')
       end.
Definition try_catch {A : Type} (body : M A) (handler : error → M A) : M A :=
  λ σ, match body σ with
       | (Normal a, σ') => (Normal a, σ')
       | (Throw e, σ') => handler e σ'
       end.
Definition modify (f : page → page) : M unit := λ σ, (Normal tt, f σ).

Notation "'let*' x ':=' m 'in' k" := (bind m (λ x, k))
  (at level 10, x name, m at level 100, k at level 200, only parsing).
Notation "m '>>' k" := (bind m (λ _, k))
  (at level 100, right associativity, only parsing).

(** ** Profile cache: [fetchProfile] *)

Module Cache.

(** What the host answers to one request: the [fetch] promise rejects, or
    it resolves with a status and a body, [None] when the body is not
    JSON ([response.json()] rejects). *)
Inductive fetch_result : Type :=
| NetworkError
| Response (status : Z) (body : option value).

Record response : Type := { status : Z; body : option value }.

Definition ok (r : response) : bool := ((200 <=? status r) && (status r <=? 299))%Z.

(** The promise of [fetch(...)] settles. *)
Definition fetch_settles (r : fetch_result) : M response :=
  match r with
  | NetworkError => throw TypeError
  | Response st b => ret {| status := st; body := b |}
  end.

Definition json (r : response) : M value :=
  match body r with
  | Some v => ret v
  | None => throw SyntaxError
  end.

Definition warn (handle : string) : M unit :=
  modify (set_console (λ c, c ++ [handle])).

Definition cache_set (handle : string) (v : value) : M unit :=
  modify (set_profileCache (λ m, <[handle := v]> m)).

(** Where a call of [fetchProfile] stands at its first [await]: it has
    returned the cached value, or it has sent a request. *)
Inductive lookup : Type :=
| Cached (v : value)
| Requested.

(** Lines 23-28, the part that runs when [fetchProfile] is called. *)
Definition fetchProfile_call (handle : string) (σ : page) : lookup * page :=
  match profileCache σ !! handle with
  | Some v => (Cached v, σ)
  | None => (Requested, set_network (λ n, n ++ [handle]) σ)
  end.

(** Lines 27-43 from the settling of the request on. *)
Definition fetchProfile_settle (handle : string) (r : fetch_result) : M value :=
  try_catch
    (let* resp := fetch_settles r in
     if negb (ok resp) then
       warn handle >>
       cache_set handle JNull >>
       ret JNull
     else
       let* data := json resp in
       cache_set handle data >>
       ret data)
    (λ _,
       warn handle >>
       cache_set handle JNull >>
       ret JNull).

Definition fetchProfile_await (handle : string) (lk : lookup) (r : fetch_result) : M value :=
  match lk with
  | Cached v => ret v
  | Requested => fetchProfile_settle handle r
  end.

(** [fetchProfile(handle)] run to the settling of its promise with
    nothing in between; [r] is the host's answer should a request be
    sent. *)
Definition fetchProfile (handle : string) (r : fetch_result) : M value :=
  λ σ, let '(lk, σ') := fetchProfile_call handle σ in
       fetchProfile_await handle lk r σ'.

End Cache.
Export Cache.

(** ** Mention classifier: [extractHandle], [isInPost], [isMention] *)

Module Classifier.

Definition isDelimiter (c : ascii) : bool :=
  Ascii.eqb c "/" || Ascii.eqb c "?" || Ascii.eqb c "#".

(** The longest run matched by [[^/?#]*] at the start of [s]. *)
Fixpoint token (s : string) : string :=
  match s with
  | EmptyString => EmptyString
  | String c r => if isDelimiter c then EmptyString else String c (token r)
  end.

(** [s.match(/\/profile\/([^/?#]+)/)], its first capture: the match is
    tried at every position from the left, and the capture is greedy. *)
Fixpoint regex_match (s : string) : option string :=
  match s with
  | EmptyString => None
  | String _ r =>
      if startsWith "/profile/" s then
        match token (drop 9 s) with
        | EmptyString => regex_match r
        | t => Some t
        end
      else regex_match r
  end.

Definition extractHandle (k : link) : option string :=
  match getAttribute "href" k with
  | None => None
  | Some href => if isEmpty href then None else regex_match href
  end.

Definition testid (v : string) : selector := AttrIs "data-testid" v.

Definition isInPost (k : link) : bool :=
  if found (closest (testid "profileHeaderDisplayName") k) then false else
  if found (closest (testid "profileHeaderHandle") k) then false else
  if found (closest (testid "suggestedFollows") k) then false else
  if found (closest (testid "whoToFollow") k) then false else
  if found (closest (Tag "nav") k) then false else
  if found (closest (AttrIs "role" "navigation") k) then false else
  if found (closest (testid "homeScreenFeedTabs") k) then false else
  let linkText := trim (textContent k) in
  if negb (startsWith "@" linkText) then false else
  let inPostContent :=
    found (closest (testid "postText") k) ||
    found (closest (AttrStarts "data-testid" "feedItem") k) ||
    found (closest (testid "threadPost") k) ||
    found (closest (testid "postThreadItem") k) ||
    found (closest (Tag "article") k) ||
    found (closest (testid "replyBtn") k ≫= parentElement) in
  if inPostContent then true else
  let mainContent :=
    found (closest (Tag "main") k) ||
    found (closest (testid "mainContent") k) in
  if mainContent then
    let isInHeader :=
      found (closest (testid "postMeta") k) ||
      found (closest (Tag "header") k) in
    if negb isInHeader then true else false
  else false.

Definition isMention (k : link) : bool :=
  let text := trim (textContent k) in
  negb (isEmpty text) && startsWith "@" text.

End Classifier.
Export Classifier.

(** ** Mention renderer: [replaceMention] *)

Module Renderer.

(** A call of [replaceMention] suspended at its [await]: the variables
    its continuation and its image handlers close over. *)
Record task : Type := Task {
  t_link : nat;
  t_handle : string;
  t_originalText : string;
  t_lookup : lookup
}.

(** Lines 131-134. *)
Definition placeholder (text : string) : img :=
  {| classList := ["bppi-avatar"; "bppi-loading"];
     alt := text; title := text; src := None;
     onload := false; onerror := None |}.

(** The link's children are replaced ([innerHTML = ''] with [appendChild],
    or the [textContent] setter).  The assignment drops every node inside
    the link; the page keeps no record of anchors inside anchors, so a
    statement about the other anchors of the page holds where there are
    none ([no_nested_anchors]). *)
Definition setChildren (l : nat) (c : content) : page → page :=
  set_document (alter (λ k, Link (attrs k) c (ancestors k)) l).

(** An assignment to the image made by link [l]'s call; it shows on the
    page while the image is still the link's child. *)
Definition updateImg (l : nat) (f : img → img) : page → page :=
  set_document (alter (λ k,
    match children k with
    | Avatar i => Link (attrs k) (Avatar (f i)) (ancestors k)
    | Text _ => k
    end) l).

Definition remove_class (c : string) (cl : list string) : list string :=
  List.filter (λ x, negb (String.eqb x c)) cl.

Definition add_class (c : string) (cl : list string) : list string :=
  if existsb (String.eqb c) cl then cl else cl ++ [c].

(** [link.textContent = originalText; processedLinks.delete(link)]. *)
Definition restore (l : nat) (originalText : string) (σ : page) : page :=
  set_processedLinks (λ s, s ∖ {[l]}) (setChildren l (Text originalText) σ).

(** Lines 124-144 up to the [await]; [None] when the call returns
    before it.  An index that names no anchor is no link at all. *)
Definition replaceMention_call (l : nat) (σ : page) : option task * page :=
  match document σ !! l with
  | None => (None, σ)
  | Some k =>
      if bool_decide (l ∈ processedLinks σ) then (None, σ) else
      let σ1 := set_processedLinks (λ s, {[l]} ∪ s) σ in
      match extractHandle k with
      | None => (None, σ1)
      | Some handle =>
          if isEmpty handle then (None, σ1) else
          let originalText := textContent k in
          let σ2 := setChildren l (Avatar (placeholder originalText)) σ1 in
          let '(lk, σ3) := fetchProfile_call handle σ2 in
          (Some (Task l handle originalText lk), σ3)
      end
  end.

Definition set_src (url : string) (i : img) : img :=
  {| classList := classList i; alt := alt i; title := title i;
     src := Some url; onload := onload i; onerror := onerror i |}.

(** Lines 148-159: title, class and the two handlers. *)
Definition set_resolved (label originalText : string) (i : img) : img :=
  {| classList := remove_class "bppi-loading" (classList i);
     alt := alt i; title := label; src := src i;
     onload := true; onerror := Some originalText |}.

(** Lines 146-164, with the awaited [profile]. *)
Definition replaceMention_resume (t : task) (profile : value) : M unit :=
  let l := t_link t in
  let handle := t_handle t in
  if truthy profile && truthy_opt (getMember "avatar" profile) then
    match getMember "avatar" profile ≫= toString with
    | None => throw TypeError
    | Some url =>
        modify (updateImg l (set_src url)) >>
        match toString (orElse (getMember "displayName" profile) handle) with
        | None => throw TypeError
        | Some name =>
            modify (updateImg l
              (set_resolved (name +:+ " (@" +:+ handle +:+ ")") (t_originalText t)))
        end
    end
  else
    modify (restore l (t_originalText t)).

(** The rest of a suspended call, once the host has answered. *)
Definition replaceMention_await (t : task) (r : fetch_result) : M unit :=
  let* profile := fetchProfile_await (t_handle t) (t_lookup t) r in
  replaceMention_resume t profile.

(** [replaceMention(link)] run from call to settling with nothing in
    between. *)
Definition replaceMention (l : nat) (r : fetch_result) (σ : page) : completion unit * page :=
  match replaceMention_call l σ with
  | (None, σ') => (Normal tt, σ')
  | (Some t, σ') => replaceMention_await t r σ'
  end.

(** The [load] and [error] events of the image inside link [l]. *)
Inductive img_event : Type := Load | Error.

Definition fire (l : nat) (ev : img_event) (σ : page) : page :=
  match document σ !! l with
  | Some k =>
      match children k, ev with
      | Avatar i, Load =>
          if onload i then
            updateImg l (λ i,
              {| classList := add_class "bppi-loaded" (classList i);
                 alt := alt i; title := title i; src := src i;
                 onload := onload i; onerror := onerror i |}) σ
          else σ
      | Avatar i, Error =>
          match onerror i with
          | Some originalText => restore l originalText σ
          | None => σ
          end
      | Text _, _ => σ
      end
  | None => σ
  end.

End Renderer.
Export Renderer.

(** ** Scan scheduler: [processMentions] *)

Module Scheduler.

Definition querySelectorAll (sel : selector) (doc : list link) : list nat :=
  List.filter
    (λ l, match doc !! l with
          | Some k => matches sel (self k)
          | None => false
          end)
    (seq 0 (length doc)).

(** The selector of line 172, [a[href*="/profile/"]]. *)
Definition profileLink : selector := Both (Tag "a") (AttrIncludes "href" "/profile/").

(** Lines 172-185: the batch collected by one scan. *)
Definition mentionsToProcess (σ : page) : list nat :=
  List.filter
    (λ l, match document σ !! l with
          | Some k =>
              if bool_decide (l ∈ processedLinks σ) then false else
              if negb (isMention k) then false else
              if negb (isInPost k) then false else true
          | None => false
          end)
    (querySelectorAll profileLink (document σ)).

(** [processMentions()]: the batch handed to the deferred callback, if
    one is queued. *)
Definition processMentions (σ : page) : option (list nat) :=
  let batch := mentionsToProcess σ in
  if 0 <? length batch then Some batch else None.

(** The deferred callback, [mentionsToProcess.forEach(replaceMention)]:
    every call runs up to its [await]. *)
Fixpoint forEach_replaceMention (batch : list nat) (σ : page) : list task * page :=
  match batch with
  | [] => ([], σ)
  | l :: rest =>
      let '(t, σ1) := replaceMention_call l σ in
      let '(ts, σ2) := forEach_replaceMention rest σ1 in
      (match t with Some t => t :: ts | None => ts end, σ2)
  end.

End Scheduler.
Export Scheduler.

(** ** Mutation watcher: [setupObserver] *)

Module Watcher.

(** A [MutationRecord], by the lengths of its node lists. *)
Record mutation : Type := Mutation {
  addedNodes : nat;
  removedNodes : nat
}.

(** Lines 207-214. *)
Fixpoint shouldProcess (mutations : list mutation) : bool :=
  match mutations with
  | [] => false
  | m :: rest => if 0 <? addedNodes m then true else shouldProcess rest
  end.

(** The host's timers, in milliseconds: [timeout] is the property
    [setupObserver.timeout], [pending] the timers set and not yet fired
    or cleared, each with the time it is due, [next_id] the handle the
    next [setTimeout] returns (handles are positive). *)
Record timers : Type := Timers {
  timeout : option nat;
  next_id : nat;
  pending : list (nat * nat)
}.

Definition started : timers := Timers None 1 [].

Definition clearTimeout (id : nat) (τ : timers) : timers :=
  Timers (timeout τ) (next_id τ)
         (List.filter (λ p, negb (Nat.eqb (fst p) id)) (pending τ)).

Definition setTimeout (now delay : nat) (τ : timers) : nat * timers :=
  (next_id τ,
   Timers (timeout τ) (S (next_id τ)) (pending τ ++ [(next_id τ, now + delay)])).

(** The observer's callback, lines 206-223, run at time [now]. *)
Definition observe (now : nat) (mutations : list mutation) (τ : timers) : timers :=
  if shouldProcess mutations then
    let τ1 :=
      match timeout τ with
      | Some id => if Nat.eqb id 0 then τ else clearTimeout id τ
      | None => τ
      end in
    let '(id, τ2) := setTimeout now 100 τ1 in
    Timers (Some id) (next_id τ2) (pending τ2)
  else τ.

(** The host fires the timers due by [now]: each runs [processMentions];
    the result lists when. *)
Definition due_by (now : nat) (τ : timers) : list nat :=
  map snd (List.filter (λ p, snd p <=? now) (pending τ)).

Definition fire_due (now : nat) (τ : timers) : timers :=
  Timers (timeout τ) (next_id τ)
         (List.filter (λ p, negb (snd p <=? now)) (pending τ)).

(** Mutation batches delivered at the given times, in order; timers due
    by the time of a batch fire before it, and those left fire at the end.  The
    result is the times at which [processMentions] ran. *)
Fixpoint run (batches : list (nat * list mutation)) (τ : timers) : list nat :=
  match batches with
  | [] => map snd (pending τ)
  | (now, mutations) :: rest =>
      due_by now τ ++ run rest (observe now mutations (fire_due now τ))
  end.

End Watcher.
Export Watcher.

(** ** The vocabulary of the specification

    What the specification says in words, written down next to the code to
    compare the two. *)

Module Spec.

(** A token is a run of characters free of ['/'], ['?'] and ['#'] ... *)
Fixpoint free_of_delimiters (t : string) : Prop :=
  match t with
  | EmptyString => True
  | String c r =>
      c ≠ "/"%char ∧ c ≠ "?"%char ∧ c ≠ "#"%char ∧ free_of_delimiters r
  end.

(** ... that runs up to the next of them, or to the end. *)
Definition stops (rest : string) : Prop :=
  match rest with
  | EmptyString => True
  | String c _ => c = "/"%char ∨ c = "?"%char ∨ c = "#"%char
  end.

(** [href] holds [/profile/{tok}] after [pre]. *)
Definition profile_path_at (href pre tok rest : string) : Prop :=
  href = pre +:+ "/profile/" +:+ tok +:+ rest ∧
  tok ≠ "" ∧ free_of_delimiters tok ∧ stops rest.

(** The occurrence nearest to the start of [href]. *)
Definition first_profile_path (href pre tok rest : string) : Prop :=
  profile_path_at href pre tok rest ∧
  ∀ pre' tok' rest',
    profile_path_at href pre' tok' rest' → String.length pre ≤ String.length pre'.

(** The three ways a lookup fails: transport error, non-success status,
    payload that is not JSON. *)
Inductive failure : fetch_result → Prop :=
| transport_error : failure NetworkError
| non_success (st : Z) (b : option value) :
    ok {| status := st; body := b |} = false → failure (Response st b)
| malformed_payload (st : Z) : failure (Response st None).

(** The label's name part, [displayName or identifier], for a display
    name that is a string or is missing. *)
Definition labelName (profile : value) (identifier : string) : string :=
  match getMember "displayName" profile with
  | Some (JStr d) => if isEmpty d then identifier else d
  | _ => identifier
  end.

Definition textual (o : option value) : Prop :=
  match o with
  | None | Some (JStr _) => True
  | Some _ => False
  end.

(** The batches that qualify, those that added a node. *)
Definition qualifying (batches : list (nat * list mutation)) : list (nat * list mutation) :=
  List.filter (λ b, shouldProcess (snd b)) batches.

(** Each burst comes no later than 100 ms after the one before, the
    debounce window still open. *)
Fixpoint within_window (times : list nat) : Prop :=
  match times with
  | a :: (b :: _) as rest => a ≤ b ∧ b < a + 100 ∧ within_window rest
  | _ => True
  end.

End Spec.
Export Spec.

(** ** One element followed through the renderer *)

Module Lifecycle.

(** The test of line 146, [profile && profile.avatar]: a lookup result
    that carries a usable avatar reference. *)
Definition usable (profile : value) : bool :=
  truthy profile && truthy_opt (getMember "avatar" profile).

(** One element taken through the renderer: the call, the host's answer,
    and then possibly an event of its image. *)
Definition lifecycle (l : nat) (r : fetch_result) (ev : option img_event) (σ : page) : page :=
  let σ1 := snd (replaceMention l r σ) in
  match ev with
  | Some e => fire l e σ1
  | None => σ1
  end.

Definition childrenOf (l : nat) (σ : page) : option content :=
  children <$> document σ !! l.

(** What the script never changes of a link: attributes and ancestors. *)
Definition frameOf (l : nat) (σ : page) : option (list (string * string) * list element) :=
  (λ k, (attrs k, ancestors k)) <$> document σ !! l.

(** The state a call leaves behind when it reaches its [await]. *)
Definition swapped (l : nat) (text : string) (σ : page) : page :=
  setChildren l (Avatar (placeholder text)) (set_processedLinks (λ s, {[l]} ∪ s) σ).

(** The three ways a call that reaches its [await] can end. *)
Inductive ending (l : nat) (h text : string) (profile : value) (σf : page) :
    completion unit * page → Prop :=
| reverted :
    usable profile = false →
    ending l h text profile σf (Normal tt, restore l text (swapped l text σf))
| resolved (url name : string) :
    usable profile = true →
    ending l h text profile σf
      (Normal tt,
       updateImg l (set_resolved (name +:+ " (@" +:+ h +:+ ")") text)
         (updateImg l (set_src url) (swapped l text σf)))
| thrown (σ' : page) :
    usable profile = true →
    σ' = swapped l text σf ∨ (∃ url, σ' = updateImg l (set_src url) (swapped l text σf)) →
    ending l h text profile σf (Throw TypeError, σ').

(** The image of a resolved mention. *)
Definition resolved_img (url label originalText : string) : img :=
  set_resolved label originalText (set_src url (placeholder originalText)).

End Lifecycle.
Export Lifecycle.

(** ** A sample page *)

Module Sample.

Definition post : list element :=
  [Element "div" [("data-testid", "postText")]; Element "body" []; Element "html" []].

Definition alice : link :=
  Link [("href", "/profile/alice.test")] (Text "@alice.test") post.

(** A mention whose destination holds no identifier. *)
Definition nobody : link :=
  Link [("href", "/profile/")] (Text "@nobody") post.

Definition suggested : link :=
  Link [("href", "/profile/alice.test")] (Text "@alice.test")
       [Element "div" [("data-testid", "suggestedFollows")];
        Element "body" []; Element "html" []].

Definition feed : page := Page ∅ ∅ [alice; nobody; suggested] [] [].

Definition alice_record : value :=
  JObj [("avatar", JStr "https://x/img.jpg"); ("displayName", JStr "Alice")].

(** A well-formed answer without an avatar. *)
Definition faceless_record : value :=
  JObj [("handle", JStr "alice.test"); ("displayName", JStr "Alice")].

(** A mention inside the anchor of another mention, which no HTML parser
    produces but a script can build. *)
Definition quoted : link :=
  Link [("href", "/profile/bob.test")] (Text "@bob.test") (self alice :: post).

(** An answer with an avatar whose display name has no string form. *)
Definition unnamed_record : value :=
  JObj [("avatar", JStr "https://x/img.jpg");
        ("displayName", JObj [("toString", JNum "1")])].

End Sample.

(** ** Vocabulary for the behaviour of the classifier *)

Module Regions.

(** Some element of the link's chain, the link itself or an ancestor,
    matches the selector. *)
Definition inChain (sel : selector) (k : link) : Prop :=
  Exists (λ e, matches sel e = true) (self k :: ancestors k).

(** The regions tested by lines 71-79. *)
Definition excluded_regions : list selector :=
  [testid "profileHeaderDisplayName"; testid "profileHeaderHandle";
   testid "suggestedFollows"; testid "whoToFollow";
   Tag "nav"; AttrIs "role" "navigation"; testid "homeScreenFeedTabs"].

(** The containers tested by lines 87-91. *)
Definition post_regions : list selector :=
  [testid "postText"; AttrStarts "data-testid" "feedItem"; testid "threadPost";
   testid "postThreadItem"; Tag "article"].

(** Line 92: the nearest element marked [replyBtn] has a parent element. *)
Definition beside_reply (k : link) : Prop :=
  ∃ below e p above,
    self k :: ancestors k = below ++ e :: p :: above ∧
    matches (testid "replyBtn") e = true ∧
    Forall (λ x, matches (testid "replyBtn") x = false) below.

Fixpoint all_whitespace (s : string) : Prop :=
  match s with
  | EmptyString => True
  | String c r => isWhiteSpace c = true ∧ all_whitespace r
  end.

End Regions.
Export Regions.

(** ** What a lookup and a suspended call come to *)

Module Outcome.

(** The answer counts as a failed lookup (the decidable form of
    [failure]). *)
Definition failed (r : fetch_result) : bool :=
  match r with
  | NetworkError => true
  | Response st None => true
  | Response st (Some data) => negb (ok {| status := st; body := Some data |})
  end.

(** What a lookup that sent a request returns and stores. *)
Definition answer (r : fetch_result) : value :=
  match r with
  | Response st (Some data) =>
      if ok {| status := st; body := Some data |} then data else JNull
  | _ => JNull
  end.

(** Sequential lookups, each settled before the next is made. *)
Fixpoint lookups (ls : list (string * fetch_result)) (σ : page) : page :=
  match ls with
  | [] => σ
  | (h, r) :: rest => lookups rest (snd (fetchProfile h r σ))
  end.

(** The handles, in order, that are neither cached at the start nor looked
    up before. *)
Fixpoint first_uncached (cached : gset string) (hs : list string) : list string :=
  match hs with
  | [] => []
  | h :: rest =>
      if bool_decide (h ∈ cached) then first_uncached cached rest
      else h :: first_uncached ({[h]} ∪ cached) rest
  end.

(** The profile a suspended call resumes with: read from the cache when it
    was called, or the answer to its own request. *)
Definition awaited (t : task) (r : fetch_result) : value :=
  match t_lookup t with
  | Cached v => v
  | Requested => answer r
  end.

(** Two pages that differ at most in what the console shows. *)
Definition same_but_console (σ σ' : page) : Prop :=
  profileCache σ = profileCache σ' ∧ processedLinks σ = processedLinks σ' ∧
  document σ = document σ' ∧ network σ = network σ'.

(** Nothing but link [l] and its mark differs between two pages, and of
    link [l] neither attributes nor ancestors. *)
Definition only_link_touched (l : nat) (σ σ' : page) : Prop :=
  (∀ j, j ≠ l → document σ' !! j = document σ !! j ∧
                (j ∈ processedLinks σ' ↔ j ∈ processedLinks σ)) ∧
  (∀ j, frameOf j σ' = frameOf j σ) ∧
  length (document σ') = length (document σ).

(** The scans of a debounce that was last re-armed at [t0], given the
    times of the qualifying batches still to come. *)
Fixpoint debounced_from (t0 : nat) (times : list nat) : list nat :=
  match times with
  | [] => [t0 + 100]
  | t :: rest =>
      if t0 + 100 <=? t then (t0 + 100) :: debounced_from t rest
      else debounced_from t rest
  end.

Definition debounced (times : list nat) : list nat :=
  match times with
  | [] => []
  | t :: rest => debounced_from t rest
  end.

(** The timers after a sequence of batches, the due timers fired before
    each. *)
Fixpoint timers_after (batches : list (nat * list mutation)) (τ : timers) : timers :=
  match batches with
  | [] => τ
  | (now, mutations) :: rest => timers_after rest (observe now mutations (fire_due now τ))
  end.

(** At most one timer is pending, and it is the one [setupObserver.timeout]
    names. *)
Definition tidy (τ : timers) : Prop :=
  next_id τ ≠ 0 ∧
  (pending τ = [] ∨
   ∃ id due, pending τ = [(id, due)] ∧ timeout τ = Some id ∧ id ≠ 0).

(** An assignment to the image a link holds, as [updateImg] applies it. *)
Definition img_map (f : img → img) (k : link) : link :=
  match children k with
  | Avatar i => Link (attrs k) (Avatar (f i)) (ancestors k)
  | Text _ => k
  end.

(** What [replaceMention_resume] does with profile [v]: to the link, to
    the marks, and how it completes. *)
Definition resume_link (t : task) (v : value) : link → link :=
  if usable v then
    match getMember "avatar" v ≫= toString with
    | None => id
    | Some url =>
        match toString (orElse (getMember "displayName" v) (t_handle t)) with
        | None => img_map (set_src url)
        | Some name =>
            img_map (set_resolved (name +:+ " (@" +:+ t_handle t +:+ ")")
                       (t_originalText t))
            ∘ img_map (set_src url)
        end
    end
  else λ k, Link (attrs k) (Text (t_originalText t)) (ancestors k).

Definition resume_marks (t : task) (v : value) : gset nat → gset nat :=
  if usable v then id else λ s, s ∖ {[t_link t]}.

Definition resume_completion (t : task) (v : value) : completion unit :=
  if usable v then
    match getMember "avatar" v ≫= toString with
    | None => Throw TypeError
    | Some url =>
        match toString (orElse (getMember "displayName" v) (t_handle t)) with
        | None => Throw TypeError
        | Some _ => Normal tt
        end
    end
  else Normal tt.

(** What the settling of a suspended call writes into the cache and on
    the console. *)
Definition settle_cache (t : task) (r : fetch_result) : gmap string value → gmap string value :=
  match t_lookup t with
  | Cached _ => id
  | Requested => λ m, <[t_handle t := answer r]> m
  end.

Definition settle_console (t : task) (r : fetch_result) : list string → list string :=
  match t_lookup t with
  | Cached _ => id
  | Requested => if failed r then λ c, c ++ [t_handle t] else id
  end.

(** The requests sent by the calls that a dispatch suspended. *)
Definition requests (ts : list task) : list string :=
  flat_map (λ t, match t_lookup t with
                 | Requested => [t_handle t]
                 | Cached _ => []
                 end) ts.

(** No anchor of the document lies inside another anchor, as in every
    tree an HTML parser builds: none has an [a] element above it.  On such
    a page emptying a link removes no other link. *)
Definition no_nested_anchors (σ : page) : bool :=
  forallb (λ k, forallb (λ e, negb (String.eqb (tagName e) "a")) (ancestors k))
          (document σ).

(** What a link shows while its lookup is pending: an image with the two
    classes, the link's text as alternative text and tooltip, no source
    and no handler. *)
Definition loading_img (text : string) : img :=
  {| classList := ["bppi-avatar"; "bppi-loading"];
     alt := text; title := text; src := None;
     onload := false; onerror := None |}.

End Outcome.
Export Outcome.

(** * Properties *)

(** ** Strings *)

Section StringFacts.

Lemma startsWith_inv (p s : string) :
  startsWith p s = true → ∃ r, s = p +:+ r.
Proof.
  revert s. induction p as [|a p IH]; intros s H; simpl in *.
  - exists s. reflexivity.
  - destruct s as [|b s]; [discriminate|].
    destruct (Ascii.eqb a b) eqn:E; [|discriminate].
    apply Ascii.eqb_eq in E. subst b.
    destruct (IH _ H) as [r ->]. exists r. reflexivity.
Qed.

Lemma length_append (a b : string) :
  String.length (a +:+ b) = String.length a + String.length b.
Proof. induction a as [|c a IH]; simpl; [reflexivity | now rewrite IH]. Qed.

End StringFacts.

(** ** The scenarios of the specification, run on the sample page *)

Example extractHandle_alice : extractHandle Sample.alice = Some "alice.test".
Proof. reflexivity. Qed.

Example extractHandle_stops_at_delimiter :
  extractHandle (Link [("href", "https://bsky.app/profile/did:plc:abc/post/3k?x=1")]
                      (Text "@abc") []) = Some "did:plc:abc".
Proof. reflexivity. Qed.

Example extractHandle_empty_token :
  extractHandle (Link [("href", "/profile//feed")] (Text "@abc") []) = None.
Proof. reflexivity. Qed.

Example extractHandle_no_href : extractHandle (Link [] (Text "@abc") []) = None.
Proof. reflexivity. Qed.

Example suggested_is_out_of_scope :
  isMention Sample.suggested = true ∧ isInPost Sample.suggested = false.
Proof. split; reflexivity. Qed.

Example non_success_restores_text :
  childrenOf 0 (snd (replaceMention 0 (Response 404 None) Sample.feed)) =
    Some (Text "@alice.test").
Proof. reflexivity. Qed.

Example feed_has_no_nested_anchor :
  no_nested_anchors Sample.feed = true ∧
  no_nested_anchors (Page ∅ ∅ [Sample.alice; Sample.quoted] [] []) = false.
Proof. split; reflexivity. Qed.

Example unnamed_record_keeps_original_tooltip :
  let r := Response 200 (Some Sample.unnamed_record) in
  fst (replaceMention 0 r Sample.feed) = Throw TypeError ∧
  (title <$> (childrenOf 0 (snd (replaceMention 0 r Sample.feed)) ≫=
              λ c, match c with Avatar i => Some i | Text _ => None end)) =
    Some "@alice.test".
Proof. split; reflexivity. Qed.

(** ** Identifier extraction *)

Section Extraction.

Lemma isDelimiter_true (c : ascii) :
  isDelimiter c = true ↔ c = "/"%char ∨ c = "?"%char ∨ c = "#"%char.
Proof.
  unfold isDelimiter. rewrite !orb_true_iff, !Ascii.eqb_eq. tauto.
Qed.

Lemma isDelimiter_false (c : ascii) :
  isDelimiter c = false ↔ c ≠ "/"%char ∧ c ≠ "?"%char ∧ c ≠ "#"%char.
Proof.
  rewrite <- not_true_iff_false, isDelimiter_true. tauto.
Qed.

Lemma token_free (s : string) : free_of_delimiters (token s).
Proof.
  induction s as [|c r IH]; simpl; [exact I|].
  destruct (isDelimiter c) eqn:E; simpl; [exact I|].
  apply isDelimiter_false in E. tauto.
Qed.

Lemma token_rest (s : string) : ∃ rest, s = token s +:+ rest ∧ stops rest.
Proof.
  induction s as [|c r [rest [IH1 IH2]]]; simpl.
  - exists "". split; [reflexivity | exact I].
  - destruct (isDelimiter c) eqn:E.
    + exists (String c r). split; [reflexivity|].
      simpl. now apply isDelimiter_true.
    + exists rest. simpl. split; [now rewrite <- IH1 | exact IH2].
Qed.

Lemma token_unique (tok rest : string) :
  free_of_delimiters tok → stops rest → token (tok +:+ rest) = tok.
Proof.
  intros Hfree Hstop. induction tok as [|c t IH]; simpl in *.
  - destruct rest as [|c r]; simpl; [reflexivity|].
    apply isDelimiter_true in Hstop. now rewrite Hstop.
  - destruct Hfree as (H1 & H2 & H3 & Hfree).
    assert (isDelimiter c = false) as -> by now apply isDelimiter_false.
    now rewrite IH.
Qed.

Lemma append_inj_length (a a' b b' : string) :
  String.length a = String.length a' → a +:+ b = a' +:+ b' → a = a' ∧ b = b'.
Proof.
  revert a'. induction a as [|x a IH]; intros [|x' a'] Hlen Heq;
    simpl in *; try discriminate.
  - now split.
  - injection Heq as -> Heq. injection Hlen as Hlen.
    destruct (IH _ Hlen Heq) as [-> ->]. now split.
Qed.

(** An occurrence right at the start of [s] is what the first branch of
    [regex_match] tests. *)
Lemma profile_path_at_head (s tok rest : string) :
  profile_path_at s "" tok rest →
  startsWith "/profile/" s = true ∧ token (drop 9 s) = tok ∧ tok ≠ "".
Proof.
  intros (-> & Hne & Hfree & Hstop). simpl.
  split; [reflexivity|]. split; [|exact Hne].
  now apply token_unique.
Qed.

Lemma head_profile_path_at (s : string) :
  startsWith "/profile/" s = true → token (drop 9 s) ≠ "" →
  ∃ rest, profile_path_at s "" (token (drop 9 s)) rest.
Proof.
  intros Hpre Hne. apply startsWith_inv in Hpre as [r ->].
  change (drop 9 ("/profile/" +:+ r)) with r in *.
  destruct (token_rest r) as [rest [Hr Hstop]].
  exists rest. repeat split; [|exact Hne|apply token_free|exact Hstop].
  simpl. now rewrite <- Hr.
Qed.

Lemma profile_path_at_tail (c : ascii) (r pre tok rest : string) :
  profile_path_at (String c r) (String c pre) tok rest ↔ profile_path_at r pre tok rest.
Proof.
  unfold profile_path_at. simpl. split.
  - intros (H & ?). injection H as ->. tauto.
  - intros (-> & ?). tauto.
Qed.

Lemma profile_path_at_cons (c : ascii) (r pre tok rest : string) :
  profile_path_at (String c r) pre tok rest →
  pre = "" ∨ ∃ pre', pre = String c pre' ∧ profile_path_at r pre' tok rest.
Proof.
  destruct pre as [|c' pre']; [now left|]. intros H. right.
  assert (c' = c) as ->.
  { destruct H as (H & _). simpl in H. now injection H as <-. }
  exists pre'. split; [reflexivity|].
  exact (proj1 (profile_path_at_tail c r pre' tok rest) H).
Qed.

Lemma regex_match_sound (s : string) :
  match regex_match s with
  | Some t => ∃ pre rest, first_profile_path s pre t rest
  | None => ∀ pre t rest, ¬ profile_path_at s pre t rest
  end.
Proof.
  induction s as [|c r IH].
  - simpl. intros pre t rest (H & _).
    destruct pre; simpl in H; discriminate.
  - assert (Hskip :
      (∀ t rest, ¬ profile_path_at (String c r) "" t rest) →
      match regex_match r with
      | Some t => ∃ pre rest, first_profile_path (String c r) pre t rest
      | None => ∀ pre t rest, ¬ profile_path_at (String c r) pre t rest
      end).
    { intros Hhead. destruct (regex_match r) as [t|].
      - destruct IH as (pre & rest & Hat & Hfirst).
        exists (String c pre), rest.
        split; [exact (proj2 (profile_path_at_tail c r pre t rest) Hat)|].
        intros pre' tok' rest' H'.
        destruct (profile_path_at_cons _ _ _ _ _ H') as [-> | (p & -> & Hp)].
        + now apply Hhead in H'.
        + simpl. apply le_n_S. eapply Hfirst, Hp.
      - intros pre t rest H.
        destruct (profile_path_at_cons _ _ _ _ _ H) as [-> | (p & -> & Hp)].
        + now apply Hhead in H.
        + now apply IH in Hp. }
    cbn [regex_match].
    destruct (startsWith "/profile/" (String c r)) eqn:Hpre.
    + destruct (token (drop 9 (String c r))) as [|a t] eqn:Htok.
      * apply Hskip. intros t rest H.
        apply profile_path_at_head in H as (_ & H1 & H2). congruence.
      * destruct (head_profile_path_at (String c r) Hpre) as [rest Hat].
        { rewrite Htok. discriminate. }
        rewrite Htok in Hat.
        exists "", rest. split; [exact Hat|]. intros. simpl. lia.
    + apply Hskip. intros t rest H.
      apply profile_path_at_head in H as (H0 & _). congruence.
Qed.

Lemma first_profile_path_unique (s pre tok rest pre' tok' rest' : string) :
  first_profile_path s pre tok rest → first_profile_path s pre' tok' rest' →
  tok = tok'.
Proof.
  intros [Hat Hmin] [Hat' Hmin'].
  assert (String.length pre = String.length pre') as Hlen.
  { apply Nat.le_antisymm; [eapply Hmin, Hat' | eapply Hmin', Hat]. }
  destruct Hat as (Hs & _ & Hfree & Hstop).
  destruct Hat' as (Hs' & _ & Hfree' & Hstop').
  rewrite Hs in Hs'.
  apply append_inj_length in Hs' as [_ Hs']; [|exact Hlen].
  apply (append_inj_length "/profile/" "/profile/") in Hs' as [_ Hs']; [|reflexivity].
  rewrite <- (token_unique tok rest), <- (token_unique tok' rest') by assumption.
  now rewrite Hs'.
Qed.

End Extraction.

(** C7.  [extractHandle] reads the anchor's [href] for [/profile/{token}],
    the token being the run of characters up to the next ['/'], ['?'] or
    ['#'], and returns the token of the first such occurrence; it returns
    nothing exactly when the anchor has no [href] or the [href] holds no
    such occurrence. *)
Theorem extractHandle_profile_path (k : link) :
  (∀ t, extractHandle k = Some t ↔
        ∃ href pre rest,
          getAttribute "href" k = Some href ∧ first_profile_path href pre t rest) ∧
  (extractHandle k = None ↔
     getAttribute "href" k = None ∨
     ∃ href, getAttribute "href" k = Some href ∧
             ∀ pre t rest, ¬ profile_path_at href pre t rest).
Proof.
  unfold extractHandle.
  destruct (getAttribute "href" k) as [href|].
  2:{ split; [intros t; split; [discriminate|]|].
      - intros (? & ? & ? & H & _). discriminate.
      - split; [now left | reflexivity]. }
  assert (Hre : (if isEmpty href then None else regex_match href) = regex_match href).
  { destruct href; reflexivity. }
  rewrite Hre. pose proof (regex_match_sound href) as Hsound.
  destruct (regex_match href) as [t0|]; split.
  - intros t. split.
    + intros [= <-]. destruct Hsound as (pre & rest & H).
      exists href, pre, rest. now split.
    + intros (h & pre & rest & [= <-] & H).
      destruct Hsound as (pre0 & rest0 & H0).
      f_equal. eapply first_profile_path_unique; eassumption.
  - split; [discriminate|].
    intros [H | (h & [= <-] & H)]; [discriminate|].
    destruct Hsound as (pre & rest & Hat & _). now apply H in Hat.
  - intros t. split; [discriminate|].
    intros (h & pre & rest & [= <-] & Hat & _). now apply Hsound in Hat.
  - split; [|reflexivity]. intros _. right. exists href. now split.
Qed.

(** ** Scope classification *)

(** C9.  Whatever [isInPost] accepts is a mention: its trimmed text starts
    with the sigil, because line 84 rejects every other element before any
    inclusion marker is tested. *)
Theorem isInPost_implies_isMention (k : link) :
  isInPost k = true →
  startsWith "@" (trim (textContent k)) = true ∧ isMention k = true.
Proof.
  unfold isInPost, isMention.
  repeat match goal with
         | |- (if found ?c then false else _) = true → _ =>
             destruct (found c); [discriminate|]
         end.
  destruct (startsWith "@" (trim (textContent k))) eqn:Hat; [|discriminate].
  intros _. split; [reflexivity|].
  destruct (trim (textContent k)); [discriminate | reflexivity].
Qed.

Lemma isInPost_implies_isMention_witness :
  let k := Link [("href", "/profile/alice.test")] (Text " @alice.test ")
                [Element "div" [("data-testid", "postText")]; Element "body" []] in
  isInPost k = true ∧ startsWith "@" (trim (textContent k)) = true ∧ isMention k = true.
Proof.
  split; [reflexivity|].
  apply isInPost_implies_isMention. reflexivity.
Defined.

(** ** Profile cache *)

Section CacheFacts.

Lemma fetchProfile_settle_failure (handle : string) (r : fetch_result) (σ : page) :
  failure r →
  fetchProfile_settle handle r σ =
    (Normal JNull,
     set_profileCache (λ m, <[handle := JNull]> m)
       (set_console (λ c, c ++ [handle]) σ)).
Proof.
  intros [ | st b Hok | st]; unfold fetchProfile_settle, try_catch, bind; simpl.
  - reflexivity.
  - now rewrite Hok.
  - destruct (ok _); reflexivity.
Qed.

Lemma fetchProfile_settle_success (handle : string) (st : Z) (data : value) (σ : page) :
  ok {| status := st; body := Some data |} = true →
  fetchProfile_settle handle (Response st (Some data)) σ =
    (Normal data, set_profileCache (λ m, <[handle := data]> m) σ).
Proof.
  intros Hok. unfold fetchProfile_settle, try_catch, bind. simpl.
  now rewrite Hok.
Qed.

(** Every answer of the host is a failure or a success. *)
Lemma fetch_result_cases (r : fetch_result) :
  failure r ∨ ∃ st data, r = Response st (Some data) ∧
                         ok {| status := st; body := Some data |} = true.
Proof.
  destruct r as [|st [data|]].
  - left. apply transport_error.
  - destruct (ok {| status := st; body := Some data |}) eqn:Hok.
    + right. exists st, data. split; [reflexivity | exact Hok].
    + left. apply non_success, Hok.
  - left. apply malformed_payload.
Qed.

Lemma fetchProfile_settle_stores (handle : string) (r : fetch_result) (σ : page) :
  ∃ v, fst (fetchProfile_settle handle r σ) = Normal v ∧
       profileCache (snd (fetchProfile_settle handle r σ)) !! handle = Some v ∧
       processedLinks (snd (fetchProfile_settle handle r σ)) = processedLinks σ ∧
       document (snd (fetchProfile_settle handle r σ)) = document σ ∧
       network (snd (fetchProfile_settle handle r σ)) = network σ.
Proof.
  destruct (fetch_result_cases r) as [Hf | (st & data & -> & Hok)].
  - rewrite (fetchProfile_settle_failure _ _ _ Hf). exists JNull. simpl.
    repeat split. apply lookup_insert_eq.
  - rewrite (fetchProfile_settle_success _ _ _ _ Hok). exists data. simpl.
    repeat split. apply lookup_insert_eq.
Qed.

Lemma fetchProfile_hit (handle : string) (r : fetch_result) (v : value) (σ : page) :
  profileCache σ !! handle = Some v → fetchProfile handle r σ = (Normal v, σ).
Proof.
  intros H. unfold fetchProfile, fetchProfile_call. now rewrite H.
Qed.

Lemma fetchProfile_miss (handle : string) (r : fetch_result) (σ : page) :
  profileCache σ !! handle = None →
  fetchProfile handle r σ =
    fetchProfile_settle handle r (set_network (λ n, n ++ [handle]) σ).
Proof.
  intros H. unfold fetchProfile, fetchProfile_call. now rewrite H.
Qed.

Lemma fetchProfile_stores (handle : string) (r : fetch_result) (σ : page) :
  ∃ v, fst (fetchProfile handle r σ) = Normal v ∧
       profileCache (snd (fetchProfile handle r σ)) !! handle = Some v.
Proof.
  destruct (profileCache σ !! handle) as [v|] eqn:H.
  - rewrite (fetchProfile_hit _ r _ _ H). now exists v.
  - rewrite (fetchProfile_miss _ r _ H).
    destruct (fetchProfile_settle_stores handle r
                (set_network (λ n, n ++ [handle]) σ)) as (v & ? & ? & _).
    now exists v.
Qed.

(** A sequential lookup never changes an entry that is already there. *)
Lemma fetchProfile_keeps (h handle : string) (r : fetch_result) (v : value) (σ : page) :
  profileCache σ !! handle = Some v →
  profileCache (snd (fetchProfile h r σ)) !! handle = Some v.
Proof.
  intros H. destruct (profileCache σ !! h) as [w|] eqn:Hh.
  - now rewrite (fetchProfile_hit _ r _ _ Hh).
  - rewrite (fetchProfile_miss _ r _ Hh).
    assert (h ≠ handle) as Hne by congruence.
    destruct (fetch_result_cases r) as [Hf | (st & data & -> & Hok)].
    + rewrite (fetchProfile_settle_failure _ _ _ Hf). simpl.
      now rewrite lookup_insert_ne.
    + rewrite (fetchProfile_settle_success _ _ _ _ Hok). simpl.
      now rewrite lookup_insert_ne.
Qed.

End CacheFacts.

(** C4.  A lookup leaves its result in the cache, and from then on every
    lookup of the same identifier returns that very value and leaves the
    whole state, the list of requests included, as it was; lookups of other
    identifiers in between do not disturb the entry.  Nothing here depends
    on the value: a negative result [null] is returned again as any other. *)
Theorem fetchProfile_memoized (handle : string) (r1 : fetch_result) (σ : page) :
  ∃ v, fst (fetchProfile handle r1 σ) = Normal v ∧
       let σ1 := snd (fetchProfile handle r1 σ) in
       profileCache σ1 !! handle = Some v ∧
       (∀ r2, fetchProfile handle r2 σ1 = (Normal v, σ1)) ∧
       (∀ r2, network (snd (fetchProfile handle r2 σ1)) = network σ1) ∧
       (∀ h r σ', profileCache σ' !! handle = Some v →
                  profileCache (snd (fetchProfile h r σ')) !! handle = Some v ∧
                  ∀ r2, fst (fetchProfile handle r2 (snd (fetchProfile h r σ'))) = Normal v).
Proof.
  destruct (fetchProfile_stores handle r1 σ) as (v & Hv & Hc).
  exists v. split; [exact Hv|]. cbn zeta. split; [exact Hc|].
  split; [|split].
  - intros r2. now apply fetchProfile_hit.
  - intros r2. now rewrite (fetchProfile_hit _ r2 _ _ Hc).
  - intros h r σ' H'. pose proof (fetchProfile_keeps h handle r v σ' H') as Hk.
    split; [exact Hk|]. intros r2. now rewrite (fetchProfile_hit _ r2 _ _ Hk).
Qed.

Lemma fetchProfile_memoized_witness :
  let σ1 := snd (fetchProfile "ghost.test" (Response 404 None) Sample.feed) in
  profileCache σ1 !! "ghost.test" = Some JNull ∧
  fetchProfile "ghost.test" (Response 200 (Some Sample.alice_record)) σ1 = (Normal JNull, σ1).
Proof.
  destruct (fetchProfile_memoized "ghost.test" (Response 404 None) Sample.feed)
    as (v & Hv & Hc & Hagain & _).
  injection Hv as <-. split; [exact Hc | apply Hagain].
Defined.

(** C5.  Transport error, non-success status and malformed payload are
    handled alike: the lookup completes normally, never by a throw, returns
    the negative result [null] and has stored it under the identifier. *)
Theorem fetchProfile_failure_negative (handle : string) (r : fetch_result) (σ : page) :
  failure r →
  (fetchProfile_settle handle r σ =
     (Normal JNull,
      set_profileCache (λ m, <[handle := JNull]> m)
        (set_console (λ c, c ++ [handle]) σ))) ∧
  (profileCache σ !! handle = None →
   fst (fetchProfile handle r σ) = Normal JNull ∧
   profileCache (snd (fetchProfile handle r σ)) !! handle = Some JNull).
Proof.
  intros Hf. split; [now apply fetchProfile_settle_failure|].
  intros Hmiss. rewrite (fetchProfile_miss _ r _ Hmiss).
  rewrite (fetchProfile_settle_failure _ _ _ Hf). simpl.
  split; [reflexivity | apply lookup_insert_eq].
Qed.

Lemma fetchProfile_failure_negative_witness :
  fst (fetchProfile "ghost.test" (Response 200 None) Sample.feed) = Normal JNull ∧
  profileCache (snd (fetchProfile "ghost.test" (Response 200 None) Sample.feed))
    !! "ghost.test" = Some JNull.
Proof.
  refine (proj2 (fetchProfile_failure_negative "ghost.test" (Response 200 None)
                   Sample.feed _) _).
  - apply malformed_payload.
  - reflexivity.
Defined.

(** ** Renderer *)

Section RendererFacts.

Lemma regex_match_nonempty (s t : string) :
  regex_match s = Some t → isEmpty t = false.
Proof.
  induction s as [|c r IH]; [discriminate|]. cbn [regex_match].
  destruct (startsWith "/profile/" (String c r)); [|exact IH].
  destruct (token (drop 9 (String c r))) eqn:E; [exact IH|].
  now intros [= <-].
Qed.

Lemma extractHandle_nonempty (k : link) (h : string) :
  extractHandle k = Some h → isEmpty h = false.
Proof.
  unfold extractHandle. destruct (getAttribute "href" k) as [href|]; [|discriminate].
  destruct (isEmpty href); [discriminate|]. apply regex_match_nonempty.
Qed.

Lemma replaceMention_call_marked (l : nat) (σ : page) :
  l ∈ processedLinks σ → replaceMention_call l σ = (None, σ).
Proof.
  intros H. unfold replaceMention_call.
  destruct (document σ !! l); [|reflexivity].
  now rewrite bool_decide_eq_true_2.
Qed.

Lemma replaceMention_call_abandon (l : nat) (k : link) (σ : page) :
  document σ !! l = Some k → l ∉ processedLinks σ → extractHandle k = None →
  replaceMention_call l σ = (None, set_processedLinks (λ s, {[l]} ∪ s) σ).
Proof.
  intros Hk Hl Hx. unfold replaceMention_call.
  rewrite Hk, bool_decide_eq_false_2 by exact Hl. now rewrite Hx.
Qed.

Lemma replaceMention_call_swap (l : nat) (k : link) (h : string) (σ : page) :
  document σ !! l = Some k → l ∉ processedLinks σ → extractHandle k = Some h →
  replaceMention_call l σ =
    (Some (Task l h (textContent k) (fst (fetchProfile_call h σ))),
     swapped l (textContent k) (snd (fetchProfile_call h σ))).
Proof.
  intros Hk Hl Hx. unfold replaceMention_call.
  rewrite Hk, bool_decide_eq_false_2 by exact Hl. rewrite Hx.
  rewrite (extractHandle_nonempty _ _ Hx).
  unfold fetchProfile_call, swapped. simpl.
  destruct (profileCache σ !! h); reflexivity.
Qed.

(** The lookup touches neither the document nor the marks. *)
Lemma fetchProfile_await_frame (h : string) (lk : lookup) (r : fetch_result)
    (f : list link → list link) (g : gset nat → gset nat) (σ : page) :
  fetchProfile_await h lk r (set_document f (set_processedLinks g σ)) =
    (fst (fetchProfile_await h lk r σ),
     set_document f (set_processedLinks g (snd (fetchProfile_await h lk r σ)))).
Proof.
  destruct lk as [v|]; [reflexivity|]. simpl.
  destruct (fetch_result_cases r) as [Hf | (st & data & -> & Hok)].
  - now rewrite !(fetchProfile_settle_failure _ _ _ Hf).
  - now rewrite !(fetchProfile_settle_success _ _ _ _ Hok).
Qed.

Lemma fetchProfile_unfold (h : string) (r : fetch_result) (σ : page) :
  fetchProfile h r σ =
    fetchProfile_await h (fst (fetchProfile_call h σ)) r (snd (fetchProfile_call h σ)).
Proof. unfold fetchProfile. now destruct (fetchProfile_call h σ). Qed.

(** A call that reaches its [await] continues from the state the lookup
    leaves, with the placeholder in place and the link marked. *)
Lemma replaceMention_resumes (l : nat) (k : link) (h : string) (r : fetch_result) (σ : page) :
  document σ !! l = Some k → l ∉ processedLinks σ → extractHandle k = Some h →
  ∃ profile lk,
    fst (fetchProfile h r σ) = Normal profile ∧
    replaceMention l r σ =
      replaceMention_resume (Task l h (textContent k) lk) profile
        (swapped l (textContent k) (snd (fetchProfile h r σ))).
Proof.
  intros Hk Hl Hx.
  destruct (fetchProfile_stores h r σ) as (profile & Hp & _).
  exists profile, (fst (fetchProfile_call h σ)). split; [exact Hp|].
  unfold replaceMention. rewrite (replaceMention_call_swap _ _ _ _ Hk Hl Hx).
  unfold replaceMention_await, bind. cbn [t_handle t_lookup].
  unfold swapped, setChildren. rewrite fetchProfile_await_frame.
  rewrite <- fetchProfile_unfold. now rewrite Hp.
Qed.

Lemma childrenOf_setChildren (l : nat) (c : content) (σ : page) :
  is_Some (document σ !! l) → childrenOf l (setChildren l c σ) = Some c.
Proof.
  intros [k Hk]. unfold childrenOf, setChildren. simpl.
  now rewrite list_lookup_alter_eq, Hk.
Qed.

Lemma childrenOf_updateImg (l : nat) (f : img → img) (σ : page) :
  childrenOf l (updateImg l f σ) =
    (λ c, match c with Avatar i => Avatar (f i) | Text s => Text s end) <$> childrenOf l σ.
Proof.
  unfold childrenOf, updateImg. simpl. rewrite list_lookup_alter_eq.
  destruct (document σ !! l) as [[a [s|i] anc]|]; reflexivity.
Qed.

Lemma childrenOf_is_Some (l : nat) (c : content) (σ : page) :
  childrenOf l σ = Some c → is_Some (document σ !! l).
Proof. unfold childrenOf. destruct (document σ !! l); [eauto | discriminate]. Qed.

Lemma childrenOf_swapped (l : nat) (text : string) (σ : page) :
  is_Some (document σ !! l) →
  childrenOf l (swapped l text σ) = Some (Avatar (placeholder text)).
Proof. intros H. unfold swapped. now rewrite childrenOf_setChildren. Qed.

Lemma childrenOf_restore (l : nat) (text : string) (σ : page) :
  is_Some (document σ !! l) → childrenOf l (restore l text σ) = Some (Text text).
Proof.
  intros H. unfold restore.
  change (childrenOf l (set_processedLinks _ ?τ)) with (childrenOf l τ).
  now apply childrenOf_setChildren.
Qed.

Lemma is_Some_setChildren (l j : nat) (c : content) (σ : page) :
  is_Some (document (setChildren l c σ) !! j) ↔ is_Some (document σ !! j).
Proof.
  unfold setChildren. simpl. rewrite !lookup_lt_is_Some, length_alter. tauto.
Qed.

Lemma fetchProfile_document (h : string) (r : fetch_result) (σ : page) :
  document (snd (fetchProfile h r σ)) = document σ ∧
  processedLinks (snd (fetchProfile h r σ)) = processedLinks σ.
Proof.
  destruct (profileCache σ !! h) as [v|] eqn:Hc.
  - now rewrite (fetchProfile_hit _ r _ _ Hc).
  - rewrite (fetchProfile_miss _ r _ Hc).
    destruct (fetchProfile_settle_stores h r (set_network (λ n, n ++ [h]) σ))
      as (_ & _ & _ & Hp & Hd & _).
    now rewrite Hp, Hd.
Qed.

(** The four ways [replaceMention_resume] can go. *)
Lemma resume_reverts (t : task) (profile : value) (σ : page) :
  usable profile = false →
  replaceMention_resume t profile σ =
    (Normal tt, restore (t_link t) (t_originalText t) σ).
Proof.
  unfold usable, replaceMention_resume. now intros ->.
Qed.

Lemma resume_resolves (t : task) (profile : value) (url name : string) (σ : page) :
  usable profile = true →
  getMember "avatar" profile ≫= toString = Some url →
  toString (orElse (getMember "displayName" profile) (t_handle t)) = Some name →
  replaceMention_resume t profile σ =
    (Normal tt,
     updateImg (t_link t)
       (set_resolved (name +:+ " (@" +:+ t_handle t +:+ ")") (t_originalText t))
       (updateImg (t_link t) (set_src url) σ)).
Proof.
  unfold usable, replaceMention_resume. intros -> -> Hn.
  unfold bind, modify. now rewrite Hn.
Qed.

Lemma resume_throws (t : task) (profile : value) (σ : page) :
  usable profile = true →
  getMember "avatar" profile ≫= toString = None ∨
  toString (orElse (getMember "displayName" profile) (t_handle t)) = None →
  ∃ σ', replaceMention_resume t profile σ = (Throw TypeError, σ') ∧
        (σ' = σ ∨ ∃ url, σ' = updateImg (t_link t) (set_src url) σ).
Proof.
  unfold usable, replaceMention_resume. intros -> H.
  destruct (getMember "avatar" profile ≫= toString) as [url|] eqn:Hu.
  - destruct H as [H|H]; [discriminate|]. unfold bind, modify. rewrite H.
    eexists. split; [reflexivity|]. right. now exists url.
  - eexists. split; [reflexivity|]. now left.
Qed.

Lemma textual_label (profile : value) (h : string) :
  textual (getMember "displayName" profile) →
  toString (orElse (getMember "displayName" profile) h) = Some (labelName profile h).
Proof.
  unfold labelName, orElse, textual.
  destruct (getMember "displayName" profile) as [[| | |d| |]|]; try tauto.
  intros _. simpl. now destruct (isEmpty d).
Qed.

Lemma fire_childrenOf (l : nat) (ev : img_event) (σ : page) :
  fire l ev σ =
    match childrenOf l σ, ev with
    | Some (Avatar i), Load =>
        if onload i then
          updateImg l (λ i,
            {| classList := add_class "bppi-loaded" (classList i);
               alt := alt i; title := title i; src := src i;
               onload := onload i; onerror := onerror i |}) σ
        else σ
    | Some (Avatar i), Error =>
        match onerror i with
        | Some originalText => restore l originalText σ
        | None => σ
        end
    | _, _ => σ
    end.
Proof.
  unfold fire, childrenOf.
  destruct (document σ !! l) as [[a [s|i] anc]|]; destruct ev; reflexivity.
Qed.

(** What the link holds after the whole lifecycle, case by case. *)
Lemma lifecycle_reverted (l : nat) (r : fetch_result) (ev : option img_event)
    (text : string) (σ σ1 : page) :
  snd (replaceMention l r σ) = restore l text σ1 → is_Some (document σ1 !! l) →
  childrenOf l (lifecycle l r ev σ) = Some (Text text).
Proof.
  intros Hs Hl. unfold lifecycle. rewrite Hs.
  pose proof (childrenOf_restore l text σ1 Hl) as Hc.
  destruct ev as [e|]; [|exact Hc].
  rewrite fire_childrenOf, Hc. exact Hc.
Qed.

Lemma lifecycle_unarmed (l : nat) (r : fetch_result) (ev : option img_event)
    (i : img) (σ : page) :
  childrenOf l (snd (replaceMention l r σ)) = Some (Avatar i) →
  onload i = false → onerror i = None →
  childrenOf l (lifecycle l r ev σ) = Some (Avatar i).
Proof.
  intros Hc Hl He. unfold lifecycle. destruct ev as [e|]; [|exact Hc].
  rewrite fire_childrenOf, Hc, Hl, He. now destruct e.
Qed.

Lemma frameOf_alter (l j : nat) (f : link → link) (σ : page) :
  (∀ k, attrs (f k) = attrs k ∧ ancestors (f k) = ancestors k) →
  frameOf l (set_document (alter f j) σ) = frameOf l σ.
Proof.
  intros Hf. unfold frameOf. simpl. destruct (decide (j = l)) as [->|Hne].
  - rewrite list_lookup_alter_eq. destruct (document σ !! l) as [k|]; [|reflexivity].
    simpl. now destruct (Hf k) as [-> ->].
  - now rewrite list_lookup_alter_ne.
Qed.

Lemma frameOf_setChildren (l j : nat) (c : content) (σ : page) :
  frameOf l (setChildren j c σ) = frameOf l σ.
Proof. apply frameOf_alter. now intros k. Qed.

Lemma frameOf_updateImg (l j : nat) (f : img → img) (σ : page) :
  frameOf l (updateImg j f σ) = frameOf l σ.
Proof. apply frameOf_alter. intros k. now destruct (children k). Qed.

Lemma frameOf_restore (l j : nat) (text : string) (σ : page) :
  frameOf l (restore j text σ) = frameOf l σ.
Proof.
  unfold restore.
  change (frameOf l (set_processedLinks _ ?τ)) with (frameOf l τ).
  apply frameOf_setChildren.
Qed.

Lemma frameOf_swapped (l j : nat) (text : string) (σ : page) :
  frameOf l (swapped j text σ) = frameOf l σ.
Proof. unfold swapped. now rewrite frameOf_setChildren. Qed.

Lemma frameOf_fire (l j : nat) (ev : img_event) (σ : page) :
  frameOf l (fire j ev σ) = frameOf l σ.
Proof.
  rewrite fire_childrenOf.
  destruct (childrenOf j σ) as [[s|i]|]; destruct ev; try reflexivity.
  - destruct (onload i); [apply frameOf_updateImg | reflexivity].
  - destruct (onerror i); [apply frameOf_restore | reflexivity].
Qed.

Lemma link_of_parts (l : nat) (k : link) (σ : page) :
  frameOf l σ = Some (attrs k, ancestors k) → childrenOf l σ = Some (children k) →
  document σ !! l = Some k.
Proof.
  unfold frameOf, childrenOf. destruct (document σ !! l) as [k'|]; [|discriminate].
  destruct k, k'. simpl. congruence.
Qed.

Lemma processedLinks_updateImg (l : nat) (f : img → img) (σ : page) :
  processedLinks (updateImg l f σ) = processedLinks σ.
Proof. reflexivity. Qed.

Lemma processedLinks_swapped (l : nat) (text : string) (σ : page) :
  processedLinks (swapped l text σ) = {[l]} ∪ processedLinks σ.
Proof. reflexivity. Qed.

Lemma processedLinks_restore (l : nat) (text : string) (σ : page) :
  processedLinks (restore l text σ) = processedLinks σ ∖ {[l]}.
Proof. reflexivity. Qed.

Lemma restore_unmarks (l : nat) (text : string) (σ : page) :
  l ∉ processedLinks (restore l text σ).
Proof.
  rewrite processedLinks_restore. intros [_ H]%elem_of_difference.
  apply H. now apply elem_of_singleton.
Qed.

Lemma replaceMention_ending (l : nat) (k : link) (h : string) (r : fetch_result) (σ : page) :
  document σ !! l = Some k → l ∉ processedLinks σ → extractHandle k = Some h →
  ∃ profile,
    fst (fetchProfile h r σ) = Normal profile ∧
    ending l h (textContent k) profile (snd (fetchProfile h r σ)) (replaceMention l r σ).
Proof.
  intros Hk Hl Hx.
  destruct (replaceMention_resumes l k h r σ Hk Hl Hx) as (p & lk & Hp & ->).
  exists p. split; [exact Hp|].
  set (t := Task l h (textContent k) lk).
  destruct (usable p) eqn:Hu.
  2:{ rewrite (resume_reverts t p _ Hu). now constructor. }
  destruct (getMember "avatar" p ≫= toString) as [url|] eqn:Hurl.
  1: destruct (toString (orElse (getMember "displayName" p) h)) as [name|] eqn:Hname.
  - rewrite (resume_resolves t p url name _ Hu Hurl Hname). now constructor.
  - destruct (resume_throws t p (swapped l (textContent k) (snd (fetchProfile h r σ))) Hu)
      as (σ' & -> & Hσ'); [now right|]. now constructor.
  - destruct (resume_throws t p (swapped l (textContent k) (snd (fetchProfile h r σ))) Hu)
      as (σ' & -> & Hσ'); [now left|]. now constructor.
Qed.

Lemma frameOf_fetchProfile (l : nat) (h : string) (r : fetch_result) (σ : page) :
  frameOf l (snd (fetchProfile h r σ)) = frameOf l σ.
Proof. unfold frameOf. now destruct (fetchProfile_document h r σ) as [-> _]. Qed.

Lemma swapped_marks (l : nat) (text : string) (σ : page) :
  l ∈ processedLinks (swapped l text σ).
Proof.
  rewrite processedLinks_swapped. apply elem_of_union_l. now apply elem_of_singleton.
Qed.

(** After its lifecycle a link either shows its text again and is unmarked,
    which is the case exactly for a lookup without usable avatar and for a
    failed image, or it holds the image and is marked. *)
Lemma lifecycle_outcome (l : nat) (k : link) (h : string) (r : fetch_result)
    (ev : option img_event) (σ : page) :
  document σ !! l = Some k → l ∉ processedLinks σ → extractHandle k = Some h →
  ∃ profile,
    fst (fetchProfile h r σ) = Normal profile ∧
    frameOf l (lifecycle l r ev σ) = Some (attrs k, ancestors k) ∧
    ((childrenOf l (lifecycle l r ev σ) = Some (Text (textContent k)) ∧
      (l ∉ processedLinks (lifecycle l r ev σ)) ∧
      (usable profile = false ∨
       (fst (replaceMention l r σ) = Normal tt ∧ ev = Some Error))) ∨
     (∃ i, childrenOf l (lifecycle l r ev σ) = Some (Avatar i) ∧
           l ∈ processedLinks (lifecycle l r ev σ) ∧
           usable profile = true ∧
           ¬ (fst (replaceMention l r σ) = Normal tt ∧ ev = Some Error))).
Proof.
  intros Hk Hl Hx.
  destruct (replaceMention_ending l k h r σ Hk Hl Hx) as (p & Hp & He).
  exists p. split; [exact Hp|].
  set (σf := snd (fetchProfile h r σ)) in *.
  assert (is_Some (document σf !! l)) as Hin.
  { subst σf. destruct (fetchProfile_document h r σ) as [-> _]. now exists k. }
  assert (frameOf l (swapped l (textContent k) σf) = Some (attrs k, ancestors k)) as Hfr.
  { rewrite frameOf_swapped. subst σf. rewrite frameOf_fetchProfile.
    unfold frameOf. now rewrite Hk. }
  pose proof (childrenOf_swapped l (textContent k) σf Hin) as Hsw.
  pose proof (swapped_marks l (textContent k) σf) as Hsm.
  assert (is_Some (document (swapped l (textContent k) σf) !! l)) as Hin'.
  { unfold swapped. now apply is_Some_setChildren. }
  split.
  { unfold lifecycle. assert (frameOf l (snd (replaceMention l r σ)) =
                             Some (attrs k, ancestors k)) as H1.
    { inversion He as [Hu Heq | url name Hu Heq | σ' Hu Hσ' Heq]; cbn [snd].
      - now rewrite frameOf_restore.
      - now rewrite !frameOf_updateImg.
      - destruct Hσ' as [-> | [url ->]]; [exact Hfr | now rewrite frameOf_updateImg]. }
    destruct ev; [now rewrite frameOf_fire | exact H1]. }
  inversion He as [Hu Heq | url name Hu Heq | σ' Hu Hσ' Heq].
  - left. split; [|split; [|now left]].
    + eapply lifecycle_reverted; [now rewrite <- Heq | exact Hin'].
    + unfold lifecycle. rewrite <- Heq. cbn [snd].
      pose proof (restore_unmarks l (textContent k) (swapped l (textContent k) σf)) as Hnot.
      destruct ev as [e|]; [|exact Hnot].
      rewrite fire_childrenOf, childrenOf_restore by exact Hin'. exact Hnot.
  - assert (childrenOf l (snd (replaceMention l r σ)) =
            Some (Avatar (resolved_img url (name +:+ " (@" +:+ h +:+ ")") (textContent k))))
      as Hc.
    { rewrite <- Heq. cbn [snd]. now rewrite !childrenOf_updateImg, Hsw. }
    assert (l ∈ processedLinks (snd (replaceMention l r σ))) as Hmark.
    { rewrite <- Heq. cbn [snd]. now rewrite !processedLinks_updateImg. }
    assert (fst (replaceMention l r σ) = Normal tt) as Hnormal by now rewrite <- Heq.
    unfold lifecycle. destruct ev as [[|]|].
    + right. rewrite fire_childrenOf, Hc.
      change (onload (resolved_img _ _ _)) with true. cbv iota.
      rewrite childrenOf_updateImg, Hc. eexists. split; [reflexivity|].
      rewrite processedLinks_updateImg. repeat split; try assumption.
      now intros [_ ?].
    + left. rewrite fire_childrenOf, Hc.
      change (onerror (resolved_img _ _ ?t)) with (Some t). cbv iota.
      pose proof (childrenOf_is_Some _ _ _ Hc) as Hin1.
      split; [now apply childrenOf_restore|].
      split; [apply restore_unmarks | now right].
    + right. eexists. repeat split; try eassumption. now intros [_ ?].
  - right.
    assert (∃ i, childrenOf l (snd (replaceMention l r σ)) = Some (Avatar i) ∧
                 onload i = false ∧ onerror i = None) as (i & Hc & Hi1 & Hi2).
    { rewrite <- Heq. cbn [snd]. destruct Hσ' as [-> | [u ->]].
      - rewrite Hsw. eauto.
      - rewrite childrenOf_updateImg, Hsw. simpl. eauto. }
    exists i. split; [now apply lifecycle_unarmed|].
    assert (l ∈ processedLinks (snd (replaceMention l r σ))) as Hmark.
    { rewrite <- Heq. cbn [snd]. now destruct Hσ' as [-> | [u ->]]. }
    split; [|split; [exact Hu|]].
    + unfold lifecycle. destruct ev as [e|]; [|exact Hmark].
      rewrite fire_childrenOf, Hc, Hi1, Hi2. now destruct e.
    + intros [Hn _]. discriminate Hn.
Qed.

(** When the text is back after the lifecycle. *)
Lemma lifecycle_restored_iff
    (σ : page) (l : nat) (k : link) (h : string) (r : fetch_result)
    (ev : option img_event) (profile : value) :
  document σ !! l = Some k → l ∉ processedLinks σ → extractHandle k = Some h →
  fst (fetchProfile h r σ) = Normal profile →
  (childrenOf l (lifecycle l r ev σ) = Some (Text (textContent k)) ↔
   profile = JNull ∨ usable profile = false ∨
   (fst (replaceMention l r σ) = Normal tt ∧ ev = Some Error)) ∧
  (childrenOf l (lifecycle l r ev σ) = Some (Text (textContent k)) ∨
   ∃ i, childrenOf l (lifecycle l r ev σ) = Some (Avatar i)).
Proof.
  intros Hk Hl Hx Hp.
  destruct (lifecycle_outcome l k h r ev σ Hk Hl Hx) as (p & Hp' & _ & Hout).
  rewrite Hp in Hp'. injection Hp' as <-.
  destruct Hout as [(Hc & _ & Hwhy) | (i & Hc & _ & Hu & Hnot)].
  - split; [|now left]. split; [intros _; now right | intros _; exact Hc].
  - split; [|right; now exists i]. rewrite Hc. split; [discriminate|].
    intros [-> | [Hu' | Hfail]]; [discriminate Hu | congruence | contradiction].
Qed.

End RendererFacts.

(** ** Scheduler *)

Section SchedulerFacts.

Lemma querySelectorAll_In (sel : selector) (doc : list link) (l : nat) :
  In l (querySelectorAll sel doc) ↔ (∃ k, doc !! l = Some k ∧ matches sel (self k) = true).
Proof.
  unfold querySelectorAll. rewrite filter_In, in_seq. split.
  - intros [_ H]. destruct (doc !! l) as [k|]; [|discriminate]. now exists k.
  - intros (k & Hk & Hm). rewrite Hk. split; [|exact Hm].
    apply lookup_lt_Some in Hk. lia.
Qed.

Lemma mentionsToProcess_In (l : nat) (σ : page) :
  In l (mentionsToProcess σ) ↔
  (∃ k, document σ !! l = Some k ∧ matches profileLink (self k) = true ∧
        (l ∉ processedLinks σ) ∧ isMention k = true ∧ isInPost k = true).
Proof.
  unfold mentionsToProcess. rewrite filter_In, querySelectorAll_In. split.
  - intros [(k & Hk & Hm) H]. rewrite Hk in H. exists k.
    destruct (bool_decide (l ∈ processedLinks σ)) eqn:Hb; [discriminate|].
    apply bool_decide_eq_false in Hb.
    destruct (isMention k); [|discriminate].
    destruct (isInPost k); [|discriminate]. now repeat split.
  - intros (k & Hk & Hm & Hl & Hme & Hin). split; [now exists k|].
    rewrite Hk, bool_decide_eq_false_2, Hme, Hin by exact Hl. reflexivity.
Qed.

Lemma isMention_children (k : link) :
  isMention k = true → children k = Text (textContent k).
Proof.
  unfold isMention, textContent. destruct (children k); [reflexivity | discriminate].
Qed.

Lemma alter_restore_swap (l : nat) (k : link) (doc : list link) :
  doc !! l = Some k → children k = Text (textContent k) →
  alter (λ k, Link (attrs k) (Text (textContent k)) (ancestors k)) l doc = doc.
Proof.
  intros Hk Hc. apply list_eq. intros j. destruct (decide (l = j)) as [<-|Hne].
  - rewrite list_lookup_alter_eq, Hk. simpl. f_equal.
    destruct k as [a c anc]. simpl in *. now rewrite Hc.
  - now rewrite list_lookup_alter_ne.
Qed.

(** Swapping the placeholder in and the text back out leaves the page as
    it was. *)
Lemma restore_swapped_id (l : nat) (k : link) (σ : page) :
  document σ !! l = Some k → children k = Text (textContent k) →
  l ∉ processedLinks σ →
  restore l (textContent k) (swapped l (textContent k) σ) = σ.
Proof.
  intros Hk Hc Hl. destruct σ as [cache marks doc net con].
  unfold restore, swapped, setChildren, set_document, set_processedLinks. simpl in *.
  f_equal.
  - apply set_eq. intros x.
    rewrite elem_of_difference, elem_of_union, elem_of_singleton.
    split; [tauto|]. intros Hx. split; [tauto|]. now intros ->.
  - rewrite list_alter_alter_eq.
    erewrite list_alter_ext; [now apply (alter_restore_swap l k)| |reflexivity].
    intros x Hx. rewrite Hk in Hx. injection Hx as <-. reflexivity.
Qed.

(** A link in a batch is unmarked, shows its text, and is a mention in a
    post. *)
Lemma mentionsToProcess_link (l : nat) (k : link) (σ : page) :
  document σ !! l = Some k → In l (mentionsToProcess σ) →
  (l ∉ processedLinks σ) ∧ children k = Text (textContent k) ∧
  matches profileLink (self k) = true ∧ isMention k = true ∧ isInPost k = true.
Proof.
  intros Hk (k' & Hk' & Hm & Hl & Hme & Hin)%mentionsToProcess_In.
  rewrite Hk in Hk'. injection Hk' as <-.
  repeat split; try assumption. now apply isMention_children.
Qed.

(** A link put back as it was, and unmarked, is in the next batch. *)
Lemma reverted_selected (l : nat) (k : link) (σ σ' : page) :
  document σ !! l = Some k → In l (mentionsToProcess σ) →
  frameOf l σ' = Some (attrs k, ancestors k) →
  childrenOf l σ' = Some (Text (textContent k)) →
  l ∉ processedLinks σ' →
  In l (mentionsToProcess σ').
Proof.
  intros Hk Hsel Hfr Hch Hl'.
  destruct (mentionsToProcess_link l k σ Hk Hsel) as (_ & Hc & Hm & Hme & Hin).
  apply mentionsToProcess_In. exists k. repeat split; try assumption.
  apply link_of_parts; [exact Hfr | now rewrite Hc].
Qed.


End SchedulerFacts.

(** C8, as the specification words it, fails: a record can carry a usable
    avatar and a display name that has no string form.  The source is
    assigned, the template of the label then throws, and the tooltip is
    still the original text, which is no label at all. *)
Lemma resolved_label_counterexample :
  ¬ (∀ (σ : page) (l : nat) (k : link) (h : string) (r : fetch_result) (profile : value),
       document σ !! l = Some k → l ∉ processedLinks σ → extractHandle k = Some h →
       fst (fetchProfile h r σ) = Normal profile → usable profile = true →
       ∃ i url name,
         childrenOf l (snd (replaceMention l r σ)) = Some (Avatar i) ∧
         src i = Some url ∧
         title i = name +:+ " (@" +:+ h +:+ ")").
Proof.
  intros H.
  destruct (H Sample.feed 0 Sample.alice "alice.test"
              (Response 200 (Some Sample.unnamed_record)) Sample.unnamed_record)
    as (i & url & name & Hc & _ & Ht);
    [reflexivity | set_solver | reflexivity | reflexivity | reflexivity |].
  vm_compute in Hc. injection Hc as <-.
  apply (f_equal String.length) in Ht. rewrite length_append in Ht.
  simpl in Ht. lia.
Qed.

(** C8, amended.  A mention whose lookup yields a record with a usable
    avatar, where the avatar and the display name (or, for want of one, the
    identifier) have a string form, ends up holding an image whose source
    is the avatar as a string and whose title is
    ["{displayName or identifier} (@{identifier})"]; and the call
    completes.  An avatar that is a string is its own string form, and so
    is a display name that is a string or is missing. *)
Theorem replaceMention_resolved_label
    (σ : page) (l : nat) (k : link) (h : string) (r : fetch_result)
    (profile : value) (url name : string) :
  document σ !! l = Some k → l ∉ processedLinks σ → extractHandle k = Some h →
  fst (fetchProfile h r σ) = Normal profile →
  usable profile = true →
  getMember "avatar" profile ≫= toString = Some url →
  toString (orElse (getMember "displayName" profile) h) = Some name →
  fst (replaceMention l r σ) = Normal tt ∧
  (∃ i, childrenOf l (snd (replaceMention l r σ)) = Some (Avatar i) ∧
        src i = Some url ∧
        title i = name +:+ " (@" +:+ h +:+ ")") ∧
  (∀ u, getMember "avatar" profile = Some (JStr u) → url = u) ∧
  (textual (getMember "displayName" profile) → name = labelName profile h).
Proof.
  intros Hk Hl Hx Hp Hu Hav Hdn.
  destruct (replaceMention_resumes l k h r σ Hk Hl Hx) as (p & lk & Hp' & ->).
  rewrite Hp in Hp'. injection Hp' as <-.
  rewrite (resume_resolves (Task l h (textContent k) lk) profile url name _ Hu Hav Hdn).
  split; [reflexivity|]. cbn [snd t_link t_handle t_originalText].
  split; [|split].
  - rewrite !childrenOf_updateImg, childrenOf_swapped.
    + eexists. split; [reflexivity|]. split; reflexivity.
    + destruct (fetchProfile_document h r σ) as [-> _]. now exists k.
  - intros u Hu'. rewrite Hu' in Hav. now injection Hav.
  - intros Ht. rewrite (textual_label _ h Ht) in Hdn. now injection Hdn.
Qed.

Lemma replaceMention_resolved_label_witness :
  let r := Response 200 (Some Sample.alice_record) in
  fst (replaceMention 0 r Sample.feed) = Normal tt ∧
  ∃ i, childrenOf 0 (snd (replaceMention 0 r Sample.feed)) = Some (Avatar i) ∧
       src i = Some "https://x/img.jpg" ∧
       title i = "Alice (@alice.test)".
Proof.
  intros r.
  destruct (replaceMention_resolved_label Sample.feed 0 Sample.alice
              "alice.test" r Sample.alice_record "https://x/img.jpg" "Alice")
    as (Hn & Hi & _).
  - reflexivity.
  - set_solver.
  - reflexivity.
  - reflexivity.
  - reflexivity.
  - reflexivity.
  - reflexivity.
  - split; [exact Hn | exact Hi].
Defined.

(** C2, as the specification words it, fails: a lookup that succeeds with a
    record holding no avatar is not a failed lookup, no image fails to
    load, and yet the text is put back. *)
Lemma fallback_iff_failure_counterexample :
  ¬ (∀ (σ : page) (l : nat) (k : link) (h : string) (r : fetch_result)
       (ev : option img_event) (profile : value),
       document σ !! l = Some k → l ∉ processedLinks σ → extractHandle k = Some h →
       fst (fetchProfile h r σ) = Normal profile →
       (childrenOf l (lifecycle l r ev σ) = Some (Text (textContent k)) ↔
        profile = JNull ∨ ev = Some Error)).
Proof.
  intros H.
  specialize (H Sample.feed 0 Sample.alice "alice.test"
                (Response 200 (Some Sample.faceless_record)) None
                Sample.faceless_record).
  destruct H as [H _]; try reflexivity; [set_solver|].
  destruct H as [H|H]; [reflexivity | discriminate H | discriminate H].
Qed.

(** C2, amended.  After the lookup and whatever event the image then gets,
    the link holds its original text again if and only if the lookup result
    is negative or carries no usable avatar, or the avatar was applied (the
    call completed) and the image then failed to load; in every other case
    the link holds the image. *)
Theorem fallback_restored_iff
    (σ : page) (l : nat) (k : link) (h : string) (r : fetch_result)
    (ev : option img_event) (profile : value) :
  document σ !! l = Some k → l ∉ processedLinks σ → extractHandle k = Some h →
  fst (fetchProfile h r σ) = Normal profile →
  (childrenOf l (lifecycle l r ev σ) = Some (Text (textContent k)) ↔
   profile = JNull ∨ usable profile = false ∨
   (fst (replaceMention l r σ) = Normal tt ∧ ev = Some Error)) ∧
  (childrenOf l (lifecycle l r ev σ) = Some (Text (textContent k)) ∨
   ∃ i, childrenOf l (lifecycle l r ev σ) = Some (Avatar i)).
Proof. apply lifecycle_restored_iff. Qed.

Lemma fallback_restored_iff_witness :
  let r := Response 200 (Some Sample.alice_record) in
  childrenOf 0 (lifecycle 0 r (Some Error) Sample.feed) = Some (Text "@alice.test") ∧
  ∃ i, childrenOf 0 (lifecycle 0 r (Some Load) Sample.feed) = Some (Avatar i).
Proof.
  intros r. split.
  - apply (fallback_restored_iff Sample.feed 0 Sample.alice "alice.test" r
             (Some Error) Sample.alice_record);
      [reflexivity | set_solver | reflexivity | reflexivity |].
    right. right. split; reflexivity.
  - destruct (fallback_restored_iff Sample.feed 0 Sample.alice "alice.test" r
                (Some Load) Sample.alice_record) as [[Hto _] [Htext | Himg]];
      [reflexivity | set_solver | reflexivity | reflexivity | | exact Himg].
    destruct (Hto Htext) as [H | [H | [_ H]]]; discriminate H.
Defined.

(** C1, as the specification words it, fails: the link is marked before its
    identifier is extracted, and the early return leaves the mark. *)
Lemma extraction_failure_unmarked_counterexample :
  ¬ (∀ (σ : page) (l : nat) (k : link) (r : fetch_result),
       document σ !! l = Some k → l ∉ processedLinks σ → extractHandle k = None →
       (l ∉ processedLinks (snd (replaceMention l r σ))) ∧
       (In l (mentionsToProcess σ) → In l (mentionsToProcess (snd (replaceMention l r σ))))).
Proof.
  intros H.
  destruct (H Sample.feed 1 Sample.nobody NetworkError) as [Hun _];
    [reflexivity | set_solver | reflexivity |].
  apply Hun. vm_compute. set_solver.
Qed.

(** C1, amended.  When no identifier can be extracted the renderer gives
    the element up and changes nothing of it, but the element has been
    marked as processed and stays marked: later scans pass it over, and a
    later call on it returns at once. *)
Theorem extraction_failure_stays_marked
    (σ : page) (l : nat) (k : link) (r : fetch_result) :
  document σ !! l = Some k → l ∉ processedLinks σ → extractHandle k = None →
  replaceMention l r σ = (Normal tt, set_processedLinks (λ s, {[l]} ∪ s) σ) ∧
  let σ' := snd (replaceMention l r σ) in
  document σ' = document σ ∧ profileCache σ' = profileCache σ ∧
  network σ' = network σ ∧
  l ∈ processedLinks σ' ∧
  ¬ In l (mentionsToProcess σ') ∧
  ∀ r', replaceMention l r' σ' = (Normal tt, σ').
Proof.
  intros Hk Hl Hx.
  assert (replaceMention l r σ = (Normal tt, set_processedLinks (λ s, {[l]} ∪ s) σ)) as Heq.
  { unfold replaceMention. now rewrite (replaceMention_call_abandon _ _ _ Hk Hl Hx). }
  split; [exact Heq|]. rewrite Heq. cbn [snd].
  assert (l ∈ processedLinks (set_processedLinks (λ s, {[l]} ∪ s) σ)) as Hin.
  { simpl. apply elem_of_union_l. now apply elem_of_singleton. }
  repeat split; try reflexivity.
  - exact Hin.
  - rewrite mentionsToProcess_In. intros (k' & _ & _ & Hn & _). now apply Hn.
  - intros r'. unfold replaceMention.
    now rewrite (replaceMention_call_marked _ _ Hin).
Qed.

Lemma extraction_failure_stays_marked_witness :
  let σ' := snd (replaceMention 1 NetworkError Sample.feed) in
  1 ∈ processedLinks σ' ∧ ¬ In 1 (mentionsToProcess σ') ∧
  In 1 (mentionsToProcess Sample.feed).
Proof.
  pose proof (extraction_failure_stays_marked Sample.feed 1 Sample.nobody NetworkError)
    as H.
  destruct H as (_ & _ & _ & _ & Hin & Hout & _);
    [reflexivity | set_solver | reflexivity |].
  split; [exact Hin|]. split; [exact Hout|].
  apply mentionsToProcess_In. exists Sample.nobody.
  repeat split; [set_solver].
Defined.



(** C10, as the specification words it, fails: a 2xx answer whose body is
    [null] is well-formed and lacks an avatar, and what the cache then
    holds is the very [null] that a failed lookup stores. *)
Lemma faceless_record_counterexample :
  ¬ (∀ (σ : page) (l : nat) (k : link) (h : string) (st : Z) (payload : value)
       (r' : fetch_result),
       document σ !! l = Some k → In l (mentionsToProcess σ) → extractHandle k = Some h →
       profileCache σ !! h = None →
       ok {| status := st; body := Some payload |} = true →
       usable payload = false → failure r' →
       profileCache (snd (replaceMention l (Response st (Some payload)) σ)) !! h ≠
       profileCache (snd (replaceMention l r' σ)) !! h).
Proof.
  intros H.
  apply (H Sample.feed 0 Sample.alice "alice.test" 200%Z JNull NetworkError);
    try reflexivity.
  - apply mentionsToProcess_In. exists Sample.alice. repeat split; [set_solver].
  - apply transport_error.
Qed.

(** C10, amended.  A 2xx answer with a well-formed body that carries no
    usable avatar is stored in the cache as it is, which is what a failed
    lookup stores exactly when the body is [null], and no warning is
    written.  The renderer has put the loading image in place of the text
    and marked the element; it now puts the text back and clears the mark,
    so the element is in the next batch.  Every later call on it puts the
    loading image in again, finds the record in the cache without sending a
    request, and puts the text back, leaving the page as it was. *)
Theorem faceless_record_reprocessed
    (σ : page) (l : nat) (k : link) (h : string) (st : Z) (payload : value) :
  document σ !! l = Some k → In l (mentionsToProcess σ) → extractHandle k = Some h →
  profileCache σ !! h = None →
  ok {| status := st; body := Some payload |} = true →
  usable payload = false →
  let held := Avatar (loading_img (textContent k)) in
  let σ0 := snd (replaceMention_call l σ) in
  let σ1 := snd (replaceMention l (Response st (Some payload)) σ) in
  (childrenOf l σ0 = Some held ∧ l ∈ processedLinks σ0 ∧ network σ0 = network σ ++ [h]) ∧
  profileCache σ1 !! h = Some payload ∧
  (∀ r', failure r' →
     profileCache (snd (replaceMention l r' σ)) !! h = Some JNull ∧
     (profileCache σ1 !! h = profileCache (snd (replaceMention l r' σ)) !! h ↔
      payload = JNull)) ∧
  network σ1 = network σ ++ [h] ∧
  console σ1 = console σ ∧
  childrenOf l σ1 = Some (Text (textContent k)) ∧
  (l ∉ processedLinks σ1) ∧
  In l (mentionsToProcess σ1) ∧
  ∀ r,
    replaceMention_call l σ1 =
      (Some (Task l h (textContent k) (Cached payload)),
       swapped l (textContent k) σ1) ∧
    childrenOf l (snd (replaceMention_call l σ1)) = Some held ∧
    l ∈ processedLinks (snd (replaceMention_call l σ1)) ∧
    network (snd (replaceMention_call l σ1)) = network σ1 ∧
    replaceMention_await (Task l h (textContent k) (Cached payload)) r
      (snd (replaceMention_call l σ1)) = (Normal tt, σ1) ∧
    replaceMention l r σ1 = (Normal tt, σ1) ∧
    ∀ n, Nat.iter n (λ s, snd (replaceMention l r s)) σ1 = σ1.
Proof.
  intros Hk Hsel Hx Hmiss Hok Hu.
  destruct (mentionsToProcess_link l k σ Hk Hsel) as (Hl & Hc & _).
  set (r0 := Response st (Some payload)).
  assert (fetchProfile h r0 σ =
          (Normal payload,
           set_profileCache (λ m, <[h := payload]> m) (set_network (λ n, n ++ [h]) σ)))
    as Hfetch.
  { rewrite (fetchProfile_miss _ _ _ Hmiss). now apply fetchProfile_settle_success. }
  destruct (replaceMention_ending l k h r0 σ Hk Hl Hx) as (p & Hp & He).
  rewrite Hfetch in Hp, He. injection Hp as <-. cbn [snd] in He.
  set (σf := set_profileCache (λ m, <[h := payload]> m)
               (set_network (λ n, n ++ [h]) σ)) in *.
  inversion He as [_ Heq | url name Hu' Heq | σ' Hu' Hσ' Heq]; try congruence.
  cbn zeta. cbn [snd].
  assert (document σf !! l = Some k) as Hkf by exact Hk.
  assert (l ∉ processedLinks σf) as Hlf by exact Hl.
  rewrite (restore_swapped_id l k σf Hkf Hc Hlf).
  assert (profileCache σf !! h = Some payload) as Hcf by apply lookup_insert_eq.
  assert (In l (mentionsToProcess σf)) as Hself.
  { apply (reverted_selected l k σ); try assumption.
    - unfold frameOf. now rewrite Hkf.
    - unfold childrenOf. rewrite Hkf. simpl. now rewrite Hc. }
  assert (replaceMention_call l σ =
          (Some (Task l h (textContent k) Requested),
           swapped l (textContent k) (set_network (λ n, n ++ [h]) σ))) as Hcall0.
  { rewrite (replaceMention_call_swap _ _ _ _ Hk Hl Hx).
    unfold fetchProfile_call. now rewrite Hmiss. }
  assert (replaceMention_call l σf =
          (Some (Task l h (textContent k) (Cached payload)),
           swapped l (textContent k) σf)) as Hcall1.
  { rewrite (replaceMention_call_swap _ _ _ _ Hkf Hlf Hx).
    unfold fetchProfile_call. now rewrite Hcf. }
  assert (∀ r, replaceMention_await (Task l h (textContent k) (Cached payload)) r
                 (swapped l (textContent k) σf) = (Normal tt, σf)) as Hawait.
  { intros r. unfold replaceMention_await, bind. cbn [t_handle t_lookup fetchProfile_await].
    unfold ret. rewrite (resume_reverts _ _ _ Hu). cbn [t_link t_originalText].
    now rewrite (restore_swapped_id l k σf Hkf Hc Hlf). }
  assert (∀ r, replaceMention l r σf = (Normal tt, σf)) as Hfix.
  { intros r. unfold replaceMention. rewrite Hcall1. apply Hawait. }
  split; [|split; [exact Hcf|split; [|split; [reflexivity|split; [reflexivity|]]]]].
  - rewrite Hcall0. cbn [snd]. split; [|split; [apply swapped_marks | reflexivity]].
    apply childrenOf_swapped. now exists k.
  - intros r' Hf.
    assert (profileCache (snd (replaceMention l r' σ)) !! h = Some JNull) as Hneg.
    { destruct (replaceMention_ending l k h r' σ Hk Hl Hx) as (p & Hp & He').
      rewrite (fetchProfile_miss _ _ _ Hmiss) in Hp, He'.
      rewrite (fetchProfile_settle_failure _ _ _ Hf) in Hp, He'.
      injection Hp as <-. cbn [snd] in He'.
      inversion He' as [_ Heq' | url name Hu' Heq' | σ' Hu' Hσ' Heq'];
        try discriminate Hu'.
      cbn [snd]. apply lookup_insert_eq. }
    split; [exact Hneg|]. rewrite Hneg, Hcf. split; congruence.
  - split; [unfold childrenOf; rewrite Hkf; simpl; now rewrite Hc|].
    split; [exact Hlf|]. split; [exact Hself|].
    intros r. split; [exact Hcall1|]. rewrite Hcall1. cbn [snd].
    split; [apply childrenOf_swapped; now exists k|].
    split; [apply swapped_marks|]. split; [reflexivity|].
    split; [apply Hawait|]. split; [apply Hfix|].
    intros n. induction n as [|n IH]; [reflexivity|].
    simpl. now rewrite IH, Hfix.
Qed.

Lemma faceless_record_reprocessed_witness :
  let σ1 := snd (replaceMention 0 (Response 200 (Some Sample.faceless_record)) Sample.feed) in
  childrenOf 0 (snd (replaceMention_call 0 Sample.feed)) =
    Some (Avatar (loading_img "@alice.test")) ∧
  profileCache σ1 !! "alice.test" = Some Sample.faceless_record ∧
  childrenOf 0 σ1 = Some (Text "@alice.test") ∧
  In 0 (mentionsToProcess σ1) ∧
  childrenOf 0 (snd (replaceMention_call 0 σ1)) =
    Some (Avatar (loading_img "@alice.test")) ∧
  replaceMention 0 NetworkError σ1 = (Normal tt, σ1).
Proof.
  destruct (faceless_record_reprocessed Sample.feed 0 Sample.alice "alice.test" 200
              Sample.faceless_record)
    as ((Hheld & _) & Hc & _ & _ & _ & Hch & _ & Hsel & Hagain).
  - reflexivity.
  - apply mentionsToProcess_In. exists Sample.alice. repeat split; [set_solver].
  - reflexivity.
  - reflexivity.
  - reflexivity.
  - reflexivity.
  - split; [exact Hheld|]. split; [exact Hc|]. split; [exact Hch|].
    split; [exact Hsel|].
    destruct (Hagain NetworkError) as (_ & Hheld' & _ & _ & _ & Hfix & _).
    split; [exact Hheld' | exact Hfix].
Defined.

(** ** Watcher *)

Section WatcherFacts.

Lemma shouldProcess_Exists (ms : list mutation) :
  shouldProcess ms = true ↔ Exists (λ m, 0 < addedNodes m) ms.
Proof.
  induction ms as [|m ms IH]; simpl.
  - split; [discriminate | intros H; inversion H].
  - destruct (0 <? addedNodes m) eqn:E.
    + apply Nat.ltb_lt in E. split; [intros _; now left | reflexivity].
    + apply Nat.ltb_ge in E. rewrite IH. split; [now right|].
      intros H. inversion H; subst; [lia | assumption].
Qed.

Lemma last_cons (a d : nat) (l : list nat) : List.last (a :: l) d = List.last l a.
Proof.
  revert a d. induction l as [|b l IH]; intros a d; [reflexivity|].
  change (List.last (a :: b :: l) d) with (List.last (b :: l) d).
  now rewrite (IH b d), (IH b a).
Qed.

(** With no timer pending, batches that do not qualify run nothing. *)
Lemma run_quiet (batches : list (nat * list mutation)) (τ : timers) :
  pending τ = [] → qualifying batches = [] → run batches τ = [].
Proof.
  revert τ. induction batches as [|[now ms] rest IH]; intros τ Hp Hq; simpl.
  - now rewrite Hp.
  - unfold qualifying in Hq. simpl in Hq.
    destruct (shouldProcess ms) eqn:Hs; [discriminate|].
    unfold due_by, observe. rewrite Hp, Hs. simpl.
    apply IH; [simpl; now rewrite Hp | exact Hq].
Qed.

(** A qualifying batch, whatever timer was pending and not yet due,
    leaves exactly one timer, due 100 ms from now. *)
Lemma observe_rearms (now : nat) (ms : list mutation) (τ : timers) :
  shouldProcess ms = true →
  pending τ = [] ∨ (∃ id due, pending τ = [(id, due)] ∧ timeout τ = Some id ∧ id ≠ 0) →
  pending (observe now ms τ) = [(next_id τ, now + 100)] ∧
  timeout (observe now ms τ) = Some (next_id τ) ∧
  next_id (observe now ms τ) = S (next_id τ).
Proof.
  intros Hs Hp. unfold observe. rewrite Hs.
  destruct Hp as [Hp | (id & due & Hp & Ht & Hid)].
  - assert (pending (match timeout τ with
                     | Some id => if Nat.eqb id 0 then τ else clearTimeout id τ
                     | None => τ
                     end) = []) as Hc.
    { destruct (timeout τ) as [id|]; [|exact Hp].
      destruct (Nat.eqb id 0); [exact Hp|]. unfold clearTimeout. simpl. now rewrite Hp. }
    assert (next_id (match timeout τ with
                     | Some id => if Nat.eqb id 0 then τ else clearTimeout id τ
                     | None => τ
                     end) = next_id τ) as Hn.
    { destruct (timeout τ) as [id|]; [|reflexivity]. now destruct (Nat.eqb id 0). }
    unfold setTimeout. simpl. now rewrite Hc, Hn.
  - rewrite Ht. apply Nat.eqb_neq in Hid. rewrite Hid.
    unfold clearTimeout, setTimeout. simpl. rewrite Hp. simpl.
    now rewrite Nat.eqb_refl.
Qed.

(** One timer pending, set by the burst at [t0]. *)
Lemma run_armed (batches : list (nat * list mutation)) (τ : timers) (t0 id : nat) :
  pending τ = [(id, t0 + 100)] → timeout τ = Some id → id ≠ 0 → next_id τ ≠ 0 →
  StronglySorted le (t0 :: map fst batches) →
  within_window (t0 :: map fst (qualifying batches)) →
  run batches τ = [List.last (map fst (qualifying batches)) t0 + 100].
Proof.
  revert τ t0 id.
  induction batches as [|[now ms] rest IH]; intros τ t0 id Hp Ht Hid Hnext Hsort Hwin.
  - simpl. now rewrite Hp.
  - apply StronglySorted_inv in Hsort as [Hsort Hall].
    assert (t0 ≤ now) as Hle by (now inversion Hall).
    cbn [run]. unfold qualifying in *. cbn [List.filter snd] in *.
    destruct (shouldProcess ms) eqn:Hs.
    + cbn [map fst] in Hwin. destruct Hwin as (_ & Hlt & Hwin).
      assert ((t0 + 100 <=? now) = false) as Hdue by (apply Nat.leb_gt; lia).
      assert (due_by now τ = []) as ->.
      { unfold due_by. rewrite Hp. simpl. now rewrite Hdue. }
      assert (fire_due now τ = τ) as ->.
      { unfold fire_due. rewrite Hp. simpl. rewrite Hdue. simpl.
        rewrite <- Hp. now destruct τ. }
      destruct (observe_rearms now ms τ Hs) as (Hp' & Ht' & Hn').
      { right. now exists id, (t0 + 100). }
      cbn [map fst app]. rewrite last_cons.
      apply (IH _ now (next_id τ)); try assumption.
      now rewrite Hn'.
    + assert (observe now ms (fire_due now τ) = fire_due now τ) as ->.
      { unfold observe. now rewrite Hs. }
      destruct (t0 + 100 <=? now) eqn:Hdue.
      * pose proof Hdue as Hdueb. apply Nat.leb_le in Hdue.
        assert (List.filter (λ b, shouldProcess (snd b)) rest = []) as Hnone.
        { destruct (List.filter (λ b, shouldProcess (snd b)) rest) as [|[t ms'] q] eqn:Hq;
            [reflexivity|]. exfalso.
          cbn [map fst] in Hwin. destruct Hwin as (_ & Hlt & _).
          assert (In (t, ms') rest) as Hin.
          { eapply proj1, filter_In. rewrite Hq. now left. }
          apply StronglySorted_inv in Hsort as [_ Hafter].
          rewrite List.Forall_forall in Hafter.
          specialize (Hafter t).           assert (now ≤ t) by (apply Hafter, (in_map fst _ _ Hin)). lia. }
        rewrite Hnone. cbn [map List.last].
        unfold due_by. rewrite Hp. cbn [List.filter snd map]. rewrite Hdueb.
        cbn [map snd app]. f_equal.
        apply run_quiet; [|exact Hnone].
        unfold fire_due. rewrite Hp. cbn [List.filter snd pending]. now rewrite Hdueb.
      * assert (due_by now τ = []) as ->.
        { unfold due_by. rewrite Hp. simpl. now rewrite Hdue. }
        assert (fire_due now τ = τ) as ->.
        { unfold fire_due. rewrite Hp. simpl. rewrite Hdue. simpl.
          rewrite <- Hp. now destruct τ. }
        cbn [app]. apply (IH _ t0 id); try assumption.
        apply StronglySorted_inv in Hsort as [Hsort' Hafter].
        constructor; [exact Hsort'|]. now inversion Hall.
Qed.

(** No timer pending. *)
Lemma run_idle (batches : list (nat * list mutation)) (τ : timers) :
  pending τ = [] → next_id τ ≠ 0 →
  StronglySorted le (map fst batches) →
  qualifying batches ≠ [] →
  within_window (map fst (qualifying batches)) →
  run batches τ = [List.last (map fst (qualifying batches)) 0 + 100].
Proof.
  revert τ. induction batches as [|[now ms] rest IH]; intros τ Hp Hnext Hsort Hq Hwin.
  - now contradiction Hq.
  - cbn [run]. unfold qualifying in *. cbn [List.filter snd] in *.
    assert (due_by now τ = []) as -> by (unfold due_by; now rewrite Hp).
    assert (fire_due now τ = τ) as ->.
    { unfold fire_due. rewrite Hp. simpl. rewrite <- Hp. now destruct τ. }
    cbn [app]. cbn [map fst] in Hsort.
    destruct (shouldProcess ms) eqn:Hs.
    + destruct (observe_rearms now ms τ Hs) as (Hp' & Ht' & Hn'); [now left|].
      cbn [map fst]. rewrite last_cons.
      apply (run_armed rest _ now (next_id τ)); try assumption.
      now rewrite Hn'.
    + assert (observe now ms τ = τ) as -> by (unfold observe; now rewrite Hs).
      apply StronglySorted_inv in Hsort as [Hsort _]. now apply IH.
Qed.

End WatcherFacts.

(** C6.  A mutation batch sets the debounce timer, and so triggers a scan,
    exactly when one of its records added a node; a batch of removals
    leaves the timers as they were.  And when the batches that qualify
    follow each other within the 100 ms window, whatever batches of
    removals come in between or after, [processMentions] runs exactly once,
    100 ms after the last qualifying batch. *)
Theorem rescan_debounced :
  (∀ (now : nat) (ms : list mutation) (τ : timers),
     (observe now ms τ ≠ τ ↔ Exists (λ m, 0 < addedNodes m) ms) ∧
     (Exists (λ m, 0 < addedNodes m) ms → run [(now, ms)] started = [now + 100]) ∧
     (Forall (λ m, addedNodes m = 0) ms → observe now ms τ = τ ∧ run [(now, ms)] started = [])) ∧
  (∀ batches : list (nat * list mutation),
     StronglySorted le (map fst batches) →
     qualifying batches ≠ [] →
     within_window (map fst (qualifying batches)) →
     run batches started = [List.last (map fst (qualifying batches)) 0 + 100]).
Proof.
  split.
  - intros now ms τ. rewrite <- shouldProcess_Exists. split; [|split].
    + unfold observe. destruct (shouldProcess ms); [|split; [congruence | discriminate]].
      split; [reflexivity|]. intros _ Heq.
      apply (f_equal next_id) in Heq. revert Heq.
      destruct (timeout τ) as [id|]; [destruct (Nat.eqb id 0)|]; simpl; lia.
    + intros Hs.
      assert (qualifying [(now, ms)] = [(now, ms)]) as Hq.
      { unfold qualifying. simpl. now rewrite Hs. }
      pose proof (run_idle [(now, ms)] started eq_refl) as H.
      rewrite Hq in H. apply H.
      * simpl. lia.
      * repeat constructor.
      * discriminate.
      * exact I.
    + intros Hall.
      assert (shouldProcess ms = false) as Hs.
      { apply not_true_iff_false. rewrite shouldProcess_Exists.
        intros Hex. apply List.Exists_exists in Hex as (m & Hin & Hm).
        rewrite List.Forall_forall in Hall. specialize (Hall m Hin). lia. }
      unfold observe. simpl. unfold observe. now rewrite Hs.
  - intros batches Hsort Hq Hwin. apply run_idle; try assumption; [reflexivity|].
    simpl. lia.
Qed.

Lemma rescan_debounced_witness :
  let bursts := [(0, [Mutation 20 0]); (20, [Mutation 0 3; Mutation 20 0]);
                 (30, [Mutation 0 7]); (40, [Mutation 10 0]); (500, [Mutation 0 1])] in
  run bursts started = [140] ∧
  run [(7, [Mutation 0 2; Mutation 1 0])] started = [107] ∧
  observe 7 [Mutation 0 3] started = started.
Proof.
  intros bursts. split; [|split].
  - refine (proj2 rescan_debounced bursts _ _ _).
    + simpl. repeat constructor; lia.
    + discriminate.
    + simpl. lia.
  - refine (proj1 (proj2 (proj1 rescan_debounced 7 [Mutation 0 2; Mutation 1 0] started)) _).
    right. left. simpl. lia.
  - refine (proj1 (proj2 (proj2 (proj1 rescan_debounced 7 [Mutation 0 3] started)) _)).
    repeat constructor.
Defined.

(** * Further properties of the script *)

(** ** Classifier *)

Section ClassifierFacts.

Lemma found_closest_in (sel : selector) (chain : list element) :
  found (closest_in sel chain) = true ↔ Exists (λ e, matches sel e = true) chain.
Proof.
  induction chain as [|e up IH]; simpl.
  - split; [discriminate | intros H; inversion H].
  - destruct (matches sel e) eqn:E.
    + split; [intros _; now left | reflexivity].
    + rewrite IH. split; [now right|].
      intros H. inversion H; subst; [congruence | assumption].
Qed.

Lemma found_closest (sel : selector) (k : link) :
  found (closest sel k) = true ↔ inChain sel k.
Proof. apply found_closest_in. Qed.

Lemma found_closest_false (sel : selector) (k : link) :
  found (closest sel k) = false ↔ ¬ inChain sel k.
Proof. rewrite <- found_closest. now destruct (found (closest sel k)). Qed.

(** The nearest match and what lies below and above it. *)
Lemma closest_in_split (sel : selector) (chain at_ : list element) :
  closest_in sel chain = Some at_ ↔
  ∃ below e above,
    chain = below ++ e :: above ∧ at_ = e :: above ∧ matches sel e = true ∧
    Forall (λ x, matches sel x = false) below.
Proof.
  revert at_. induction chain as [|c up IH]; intros at_; simpl.
  - split; [discriminate|]. intros (below & e & above & H & _).
    destruct below; discriminate.
  - destruct (matches sel c) eqn:E.
    + split.
      * intros [= <-]. exists [], c, up. repeat split; [exact E | constructor].
      * intros (below & e & above & H & -> & He & Hb).
        destruct below as [|b below]; simpl in H.
        -- now injection H as -> ->.
        -- injection H as -> _. inversion Hb; subst. congruence.
    + rewrite IH. split.
      * intros (below & e & above & -> & -> & He & Hb).
        exists (c :: below), e, above. repeat split; [exact He | now constructor].
      * intros (below & e & above & H & -> & He & Hb).
        destruct below as [|b below]; simpl in H.
        -- injection H as -> _. congruence.
        -- injection H as -> ->. inversion Hb; subst.
           exists below, e, above. now repeat split.
Qed.

Lemma found_reply_parent (k : link) :
  found (closest (testid "replyBtn") k ≫= parentElement) = true ↔ beside_reply k.
Proof.
  unfold beside_reply, closest.
  destruct (closest_in (testid "replyBtn") (self k :: ancestors k)) as [at_|] eqn:Hc.
  - apply closest_in_split in Hc as (below & e & above & Hch & -> & He & Hb).
    simpl. destruct above as [|p above]; simpl.
    + split; [discriminate|].
      intros (below' & e' & p' & above' & Hch' & He' & Hb').
      assert (closest_in (testid "replyBtn") (self k :: ancestors k) = Some [e]) as H1.
      { apply closest_in_split. exists below, e, []. now repeat split. }
      assert (closest_in (testid "replyBtn") (self k :: ancestors k) = Some (e' :: p' :: above'))
        as H2.
      { apply closest_in_split. exists below', e', (p' :: above'). now repeat split. }
      congruence.
    + split; [intros _|reflexivity]. now exists below, e, p, above.
  - simpl. split; [discriminate|].
    intros (below & e & p & above & Hch & He & Hb).
    assert (closest_in (testid "replyBtn") (self k :: ancestors k) = Some (e :: p :: above))
      as H2.
    { apply closest_in_split. exists below, e, (p :: above). now repeat split. }
    congruence.
Qed.

Lemma trimEnd_head (c : ascii) (r : string) :
  isWhiteSpace c = false → ∃ r', trimEnd (String c r) = String c r'.
Proof.
  intros Hc. simpl. destruct (trimEnd r); [rewrite Hc|]; eauto.
Qed.

Lemma trimEnd_head_inv (s : string) (c : ascii) (r' : string) :
  trimEnd s = String c r' → ∃ r, s = String c r.
Proof.
  destruct s as [|c0 r]; [discriminate|]. simpl.
  destruct (trimEnd r); [destruct (isWhiteSpace c0)|]; intros [= -> _]; eauto.
Qed.

Lemma trimStart_split (s : string) :
  ∃ ws, s = ws +:+ trimStart s ∧ all_whitespace ws ∧
        match trimStart s with
        | EmptyString => True
        | String c _ => isWhiteSpace c = false
        end.
Proof.
  induction s as [|c r (ws & Hs & Hws & Hhd)]; simpl.
  - exists "". now repeat split.
  - destruct (isWhiteSpace c) eqn:E.
    + exists (String c ws). simpl. split; [now rewrite <- Hs | now split].
    + exists "". simpl. now repeat split.
Qed.

Lemma trimStart_skip (ws rest : string) :
  all_whitespace ws → trimStart (ws +:+ rest) = trimStart rest.
Proof.
  induction ws as [|c ws IH]; simpl; [reflexivity|].
  intros [-> Hws]. now apply IH.
Qed.

Lemma sigil_after_whitespace (s : string) :
  startsWith "@" (trim s) = true ↔
  (∃ ws rest, s = ws +:+ String "@" rest ∧ all_whitespace ws).
Proof.
  unfold trim. split.
  - intros H. destruct (trimEnd (trimStart s)) as [|c r'] eqn:Ht;
      cbn [startsWith] in H; [discriminate|].
    destruct (Ascii.eqb "@" c) eqn:E; [|discriminate].
    apply Ascii.eqb_eq in E. subst c.
    destruct (trimEnd_head_inv _ _ _ Ht) as [r Hr].
    destruct (trimStart_split s) as (ws & Hs & Hws & _).
    exists ws, r. now rewrite <- Hr.
  - intros (ws & rest & -> & Hws). rewrite (trimStart_skip _ _ Hws).
    change (trimStart (String "@" rest)) with (String "@" rest).
    destruct (trimEnd_head "@" rest eq_refl) as [r' ->]. reflexivity.
Qed.

Lemma regex_match_includes (s t : string) :
  regex_match s = Some t → includes "/profile/" s = true.
Proof.
  induction s as [|c r IH]; [discriminate|]. cbn [regex_match].
  change (includes "/profile/" (String c r))
    with (startsWith "/profile/" (String c r) || includes "/profile/" r).
  destruct (startsWith "/profile/" (String c r)); [reflexivity|].
  intros H. now rewrite (IH H).
Qed.

End ClassifierFacts.

(** X1.  Exclusion wins: a link that lies in, or is itself, one of the
    excluded regions (profile header name or handle, suggested or
    who-to-follow panel, [nav], navigation role, feed tabs) is out of scope
    whatever its text and whatever post container surrounds it. *)
Theorem isInPost_excluded_region (k : link) (sel : selector) :
  In sel excluded_regions → inChain sel k → isInPost k = false.
Proof.
  intros Hsel Hin. apply found_closest in Hin.
  unfold excluded_regions in Hsel. simpl in Hsel.
  unfold isInPost.
  repeat (match goal with
          | |- (if found ?c then false else _) = false =>
              destruct (found c) eqn:?; [reflexivity|]
          end).
  exfalso. intuition (subst; congruence).
Qed.

Lemma isInPost_excluded_region_witness :
  isInPost (Link [("href", "/profile/alice.test")] (Text "@alice.test")
                 [Element "article" []; Element "nav" []; Element "body" []]) = false.
Proof.
  apply (isInPost_excluded_region _ (Tag "nav")).
  - simpl. tauto.
  - right. right. left. reflexivity.
Defined.

(** X2.  The whole decision of [isInPost]: a link is in scope exactly when
    no element of its chain is an excluded region, its trimmed text starts
    with the sigil, and either some element of the chain is a post
    container, or the nearest [replyBtn] element has a parent element, or
    the chain holds the main content region and neither a [postMeta]
    element nor a [header]. *)
Theorem isInPost_decision (k : link) :
  isInPost k = true ↔
  (∀ sel, In sel excluded_regions → ¬ inChain sel k) ∧
  startsWith "@" (trim (textContent k)) = true ∧
  ((∃ sel, In sel post_regions ∧ inChain sel k) ∨
   beside_reply k ∨
   ((inChain (Tag "main") k ∨ inChain (testid "mainContent") k) ∧
    ¬ inChain (testid "postMeta") k ∧ ¬ inChain (Tag "header") k)).
Proof.
  rewrite <- found_reply_parent, <- !found_closest_false, <- !found_closest.
  assert (Hex : (∀ sel, In sel excluded_regions → ¬ inChain sel k) ↔
                Forall (λ sel, found (closest sel k) = false) excluded_regions).
  { rewrite List.Forall_forall. split; intros H sel Hsel.
    - apply found_closest_false. now apply H.
    - apply found_closest_false. now apply H. }
  assert (Hpost : (∃ sel, In sel post_regions ∧ inChain sel k) ↔
                  Exists (λ sel, found (closest sel k) = true) post_regions).
  { rewrite List.Exists_exists. split; intros (sel & Hsel & H); exists sel;
      (split; [exact Hsel|]); now apply found_closest. }
  rewrite Hex, Hpost. unfold excluded_regions, post_regions, isInPost.
  rewrite !Forall_cons, Forall_nil, !Exists_cons, Exists_nil.
  destruct (found (closest (testid "profileHeaderDisplayName") k)); [intuition congruence|].
  destruct (found (closest (testid "profileHeaderHandle") k)); [intuition congruence|].
  destruct (found (closest (testid "suggestedFollows") k)); [intuition congruence|].
  destruct (found (closest (testid "whoToFollow") k)); [intuition congruence|].
  destruct (found (closest (Tag "nav") k)); [intuition congruence|].
  destruct (found (closest (AttrIs "role" "navigation") k)); [intuition congruence|].
  destruct (found (closest (testid "homeScreenFeedTabs") k)); [intuition congruence|].
  destruct (startsWith "@" (trim (textContent k))); [|simpl; intuition congruence].
  cbn [negb].
  destruct (found (closest (testid "postText") k)); [simpl; intuition congruence|].
  destruct (found (closest (AttrStarts "data-testid" "feedItem") k));
    [simpl; intuition congruence|].
  destruct (found (closest (testid "threadPost") k)); [simpl; intuition congruence|].
  destruct (found (closest (testid "postThreadItem") k)); [simpl; intuition congruence|].
  destruct (found (closest (Tag "article") k)); [simpl; intuition congruence|].
  destruct (found (closest (testid "replyBtn") k ≫= parentElement));
    [simpl; intuition congruence|].
  destruct (found (closest (Tag "main") k)), (found (closest (testid "mainContent") k)),
    (found (closest (testid "postMeta") k)), (found (closest (Tag "header") k));
    simpl; intuition congruence.
Qed.

Lemma isInPost_decision_witness :
  isInPost (Link [("href", "/profile/alice.test")] (Text "@alice.test")
                 [Element "span" []; Element "div" [("data-testid", "feedItem-by-bob")];
                  Element "main" []; Element "body" []]) = true.
Proof.
  apply isInPost_decision. split; [|split; [reflexivity|]].
  - intros sel Hsel Hin. unfold excluded_regions in Hsel. simpl in Hsel.
    unfold inChain in Hin. rewrite List.Exists_exists in Hin.
    destruct Hin as (e & He & Hm). simpl in He.
    intuition (subst; discriminate).
  - left. exists (AttrStarts "data-testid" "feedItem"). split; [simpl; tauto|].
    right. right. left. reflexivity.
Defined.

(** X3.  [isMention] looks past leading white space only: it holds exactly
    when the link's text is white space followed by the sigil; what comes
    after the sigil does not matter, and a link without text, such as one
    that holds the avatar image, is no mention. *)
Theorem isMention_leading_whitespace (k : link) :
  (isMention k = true ↔
   ∃ ws rest, textContent k = ws +:+ String "@" rest ∧ all_whitespace ws) ∧
  (∀ i, children k = Avatar i → isMention k = false).
Proof.
  split.
  - rewrite <- sigil_after_whitespace. unfold isMention.
    destruct (trim (textContent k)); simpl; [split; discriminate|].
    reflexivity.
  - intros i Hi. unfold isMention, textContent. now rewrite Hi.
Qed.

Lemma isMention_leading_whitespace_witness :
  isMention (Link [] (Text "  @alice.test says hi") []) = true.
Proof.
  apply (proj1 (isMention_leading_whitespace _)).
  exists "  ", "alice.test says hi". split; [reflexivity|]. simpl. tauto.
Defined.

(** X4.  The structural query of line 172 never loses a link whose
    identifier can be extracted: whenever [extractHandle] succeeds, the
    anchor matches [a[href*="/profile/"]].  The converse fails: the query
    also returns anchors from which nothing can be extracted. *)
Theorem extractable_links_are_queried :
  (∀ k h, extractHandle k = Some h → matches profileLink (self k) = true) ∧
  ¬ (∀ k, matches profileLink (self k) = true → ∃ h, extractHandle k = Some h).
Proof.
  split.
  - intros k h. unfold extractHandle, getAttribute, profileLink. simpl.
    destruct (assoc "href" (attrs k)) as [href|]; [|discriminate].
    destruct (isEmpty href); [discriminate|].
    intros H. now rewrite (regex_match_includes _ _ H).
  - intros H. destruct (H Sample.nobody eq_refl) as [h Hh]. discriminate Hh.
Qed.

Lemma extractable_links_are_queried_witness :
  matches profileLink (self Sample.alice) = true.
Proof.
  exact (proj1 extractable_links_are_queried Sample.alice "alice.test" eq_refl).
Defined.

(** X5.  Round trip for a relative profile link: from a destination
    [/profile/{h}] followed by nothing, a path, a query or a fragment,
    [extractHandle] gives back [h], for every non-empty [h] free of ['/'],
    ['?'] and ['#']. *)
Theorem extractHandle_relative_link (k : link) (h rest : string) :
  getAttribute "href" k = Some ("/profile/" +:+ h +:+ rest) →
  h ≠ "" → free_of_delimiters h → stops rest →
  extractHandle k = Some h.
Proof.
  intros Hhref Hne Hfree Hstop. unfold extractHandle. rewrite Hhref.
  change (isEmpty ("/profile/" +:+ h +:+ rest)) with false. cbv iota.
  change ("/profile/" +:+ h +:+ rest) with (String "/" ("profile/" +:+ h +:+ rest)).
  cbn [regex_match].
  change (startsWith "/profile/" (String "/" ("profile/" +:+ h +:+ rest))) with true.
  change (drop 9 (String "/" ("profile/" +:+ h +:+ rest))) with (h +:+ rest).
  rewrite (token_unique h rest Hfree Hstop).
  destruct h; [congruence | reflexivity].
Qed.

Lemma extractHandle_relative_link_witness :
  extractHandle (Link [("class", "mention"); ("href", "/profile/did:plc:abc?tab=posts")]
                      (Text "@abc") []) = Some "did:plc:abc".
Proof.
  apply (extractHandle_relative_link _ "did:plc:abc" "?tab=posts").
  - reflexivity.
  - discriminate.
  - simpl. repeat split; discriminate.
  - simpl. tauto.
Defined.

(** ** Profile cache *)

Section LookupFacts.

Lemma failed_failure (r : fetch_result) : failed r = true ↔ failure r.
Proof.
  split.
  - destruct r as [|st [data|]]; simpl; intros H.
    + apply transport_error.
    + apply non_success. now apply negb_true_iff.
    + apply malformed_payload.
  - intros [ | st b Hok | st]; simpl; try reflexivity.
    destruct b; [now rewrite Hok | reflexivity].
Qed.

(** The settling of a request, in closed form. *)
Lemma fetchProfile_settle_eq (h : string) (r : fetch_result) (σ : page) :
  fetchProfile_settle h r σ =
    (Normal (answer r),
     set_profileCache (λ m, <[h := answer r]> m)
       (if failed r then set_console (λ c, c ++ [h]) σ else σ)).
Proof.
  destruct (failed r) eqn:Hf.
  - apply failed_failure in Hf as Hfail.
    rewrite (fetchProfile_settle_failure _ _ _ Hfail).
    destruct r as [|st [data|]]; simpl in *; try reflexivity.
    apply negb_true_iff in Hf. now rewrite Hf.
  - destruct r as [|st [data|]]; simpl in Hf; try discriminate.
    apply negb_false_iff in Hf.
    rewrite (fetchProfile_settle_success _ _ _ _ Hf). simpl. now rewrite Hf.
Qed.

Lemma answer_null (r : fetch_result) :
  answer r = JNull ↔ failure r ∨ ∃ st, r = Response st (Some JNull).
Proof.
  rewrite <- failed_failure. destruct r as [|st [data|]]; simpl.
  - split; [now left | reflexivity].
  - destruct (ok _); simpl.
    + split; [intros ->; right; now exists st|].
      intros [H | (st' & H)]; [discriminate | congruence].
    + split; [now left | reflexivity].
  - split; [now left | reflexivity].
Qed.

Lemma first_uncached_fresh (cached : gset string) (hs : list string) :
  NoDup (first_uncached cached hs) ∧
  ∀ h, In h (first_uncached cached hs) → (h ∉ cached) ∧ In h hs.
Proof.
  revert cached. induction hs as [|h rest IH]; intros cached; simpl.
  - split; [constructor | tauto].
  - destruct (bool_decide (h ∈ cached)) eqn:E.
    + destruct (IH cached) as [Hnd Hin]. split; [exact Hnd|].
      intros x Hx. destruct (Hin x Hx). tauto.
    + apply bool_decide_eq_false in E.
      destruct (IH ({[h]} ∪ cached)) as [Hnd Hin]. split.
      * apply NoDup_cons. split; [|exact Hnd].
        intros Hh%list_elem_of_In. destruct (Hin h Hh) as [Hn _].
        apply Hn, elem_of_union_l. now apply elem_of_singleton.
      * intros x [<- | Hx]; [tauto|].
        destruct (Hin x Hx) as [Hn Hr]. split; [|tauto].
        intros Hc. apply Hn. now apply elem_of_union_r.
Qed.

Lemma lookups_network (ls : list (string * fetch_result)) (σ : page) :
  network (lookups ls σ) =
    network σ ++ first_uncached (dom (profileCache σ)) (map fst ls).
Proof.
  revert σ. induction ls as [|[h r] rest IH]; intros σ; simpl.
  - now rewrite app_nil_r.
  - rewrite IH. destruct (profileCache σ !! h) as [v|] eqn:Hc.
    + rewrite (fetchProfile_hit _ r _ _ Hc). cbn [snd].
      rewrite bool_decide_eq_true_2; [reflexivity|].
      apply elem_of_dom. now exists v.
    + rewrite (fetchProfile_miss _ r _ Hc), fetchProfile_settle_eq. cbn [snd].
      rewrite bool_decide_eq_false_2 by (now apply not_elem_of_dom).
      assert (network (set_profileCache (λ m, <[h:=answer r]> m)
                (if failed r
                 then set_console (λ c, c ++ [h]) (set_network (λ n, n ++ [h]) σ)
                 else set_network (λ n, n ++ [h]) σ)) = network σ ++ [h]) as ->
        by now destruct (failed r).
      assert (profileCache (set_profileCache (λ m, <[h:=answer r]> m)
                (if failed r
                 then set_console (λ c, c ++ [h]) (set_network (λ n, n ++ [h]) σ)
                 else set_network (λ n, n ++ [h]) σ)) = <[h:=answer r]> (profileCache σ)) as ->
        by now destruct (failed r).
      rewrite dom_insert_L, <- app_assoc. reflexivity.
Qed.

End LookupFacts.

(** X6.  What one lookup of an uncached identifier does: it sends exactly
    one request, writes exactly the entry of that identifier and leaves
    every other entry, the document and the marks alone; it warns on the
    console exactly when the lookup failed; and the value it returns and
    stores is [null] exactly for a failure or for a payload that is itself
    [null], otherwise the payload. *)
Theorem fetchProfile_miss_effects (h : string) (r : fetch_result) (σ : page) :
  profileCache σ !! h = None →
  ∃ v, fetchProfile h r σ =
         (Normal v,
          Page (<[h := v]> (profileCache σ)) (processedLinks σ) (document σ)
               (network σ ++ [h])
               (if failed r then console σ ++ [h] else console σ)) ∧
       (failed r = true ↔ failure r) ∧
       (v = JNull ↔ failure r ∨ ∃ st, r = Response st (Some JNull)) ∧
       (∀ st data, r = Response st (Some data) →
                   ok {| status := st; body := Some data |} = true → v = data).
Proof.
  intros Hc. exists (answer r). split; [|split; [apply failed_failure|split]].
  - rewrite (fetchProfile_miss _ r _ Hc), fetchProfile_settle_eq.
    now destruct (failed r).
  - apply answer_null.
  - intros st data -> Hok. simpl. now rewrite Hok.
Qed.

Lemma fetchProfile_miss_effects_witness :
  fetchProfile "ghost.test" (Response 200 (Some JNull)) Sample.feed =
    (Normal JNull,
     Page (<["ghost.test" := JNull]> ∅) ∅ (document Sample.feed) ["ghost.test"] []).
Proof.
  destruct (fetchProfile_miss_effects "ghost.test" (Response 200 (Some JNull))
              Sample.feed eq_refl) as (v & Heq & _ & _ & Hv).
  rewrite Heq. now rewrite (Hv 200%Z JNull eq_refl eq_refl).
Defined.

(** X7.  Sequential lookups send one request for each identifier that is
    neither cached at the start nor looked up before, in the order of first
    use, and none else: no identifier is requested twice and none that was
    cached. *)
Theorem lookups_one_request_each (ls : list (string * fetch_result)) (σ : page) :
  network (lookups ls σ) =
    network σ ++ first_uncached (dom (profileCache σ)) (map fst ls) ∧
  NoDup (first_uncached (dom (profileCache σ)) (map fst ls)) ∧
  (∀ h, In h (first_uncached (dom (profileCache σ)) (map fst ls)) →
        profileCache σ !! h = None ∧ In h (map fst ls)) ∧
  (∀ h, In h (map fst ls) → profileCache σ !! h = None →
        In h (first_uncached (dom (profileCache σ)) (map fst ls))).
Proof.
  split; [apply lookups_network|].
  destruct (first_uncached_fresh (dom (profileCache σ)) (map fst ls)) as [Hnd Hin].
  split; [exact Hnd|]. split.
  - intros h Hh. destruct (Hin h Hh) as [Hn Hl]. split; [|exact Hl].
    now apply not_elem_of_dom.
  - clear Hnd Hin. intros h Hh Hc. apply not_elem_of_dom in Hc. revert Hh Hc.
    generalize (dom (profileCache σ)). induction (map fst ls) as [|x rest IH];
      intros cached Hh Hc; simpl in *; [contradiction|].
    destruct (bool_decide (x ∈ cached)) eqn:E.
    + apply bool_decide_eq_true in E.
      destruct Hh as [-> | Hh]; [exfalso; exact (Hc E)|]. now apply IH.
    + destruct (String.eqb_spec x h) as [-> | Hne]; [now left|].
      right. destruct Hh as [-> | Hh]; [congruence|]. apply IH; [exact Hh|].
      intros [Hx%elem_of_singleton | Hx]%elem_of_union; [congruence | exact (Hc Hx)].
Qed.

Lemma lookups_one_request_each_witness :
  network (lookups [("a.test", NetworkError); ("b.test", Response 200 (Some JNull));
                    ("a.test", Response 200 (Some Sample.alice_record));
                    ("b.test", NetworkError)] Sample.feed) = ["a.test"; "b.test"].
Proof.
  rewrite (proj1 (lookups_one_request_each _ Sample.feed)). reflexivity.
Defined.

(** X8.  Lookups are not shared while in flight: two calls for the same
    uncached identifier made before either settles both send a request,
    and when they settle the entry written by the first is overwritten by
    the second, whatever the two answers are. *)
Theorem concurrent_lookups_not_shared (h : string) (r1 r2 : fetch_result) (σ : page) :
  profileCache σ !! h = None →
  let σ1 := snd (fetchProfile_call h σ) in
  let σ2 := snd (fetchProfile_call h σ1) in
  let σ3 := snd (fetchProfile_await h Requested r1 σ2) in
  let σ4 := snd (fetchProfile_await h Requested r2 σ3) in
  fst (fetchProfile_call h σ) = Requested ∧
  fst (fetchProfile_call h σ1) = Requested ∧
  network σ2 = network σ ++ [h; h] ∧
  profileCache σ3 !! h = Some (answer r1) ∧
  fst (fetchProfile_await h Requested r2 σ3) = Normal (answer r2) ∧
  profileCache σ4 !! h = Some (answer r2) ∧
  network σ4 = network σ2.
Proof.
  intros Hc. cbn zeta. unfold fetchProfile_call. rewrite Hc. cbn [fst snd].
  change (profileCache (set_network _ σ)) with (profileCache σ). rewrite Hc.
  cbn [fst snd fetchProfile_await]. rewrite !fetchProfile_settle_eq. cbn [fst snd].
  repeat split.
  - simpl. now rewrite <- app_assoc.
  - destruct (failed r1); simpl; apply lookup_insert_eq.
  - destruct (failed r1), (failed r2); simpl; apply lookup_insert_eq.
  - now destruct (failed r1), (failed r2).
Qed.

Lemma concurrent_lookups_not_shared_witness :
  let σ2 := snd (fetchProfile_call "alice.test" (snd (fetchProfile_call "alice.test" Sample.feed))) in
  let σ3 := snd (fetchProfile_await "alice.test" Requested
                   (Response 200 (Some Sample.alice_record)) σ2) in
  let σ4 := snd (fetchProfile_await "alice.test" Requested NetworkError σ3) in
  network σ2 = ["alice.test"; "alice.test"] ∧
  profileCache σ3 !! "alice.test" = Some Sample.alice_record ∧
  profileCache σ4 !! "alice.test" = Some JNull.
Proof.
  destruct (concurrent_lookups_not_shared "alice.test"
              (Response 200 (Some Sample.alice_record)) NetworkError Sample.feed eq_refl)
    as (_ & _ & Hn & H3 & _ & H4 & _).
  split; [exact Hn|]. split; [exact H3 | exact H4].
Defined.

(** ** Renderer *)

Section SettleFacts.

Lemma updateImg_img_map (l : nat) (f : img → img) (σ : page) :
  updateImg l f σ = set_document (alter (img_map f) l) σ.
Proof. reflexivity. Qed.

Lemma page_eta (σ : page) :
  Page (profileCache σ) (processedLinks σ) (document σ) (network σ) (console σ) = σ.
Proof. now destruct σ. Qed.

(** [replaceMention_resume] in closed form. *)
Lemma replaceMention_resume_eq (t : task) (v : value) (σ : page) :
  replaceMention_resume t v σ =
    (resume_completion t v,
     Page (profileCache σ) (resume_marks t v (processedLinks σ))
          (alter (resume_link t v) (t_link t) (document σ)) (network σ) (console σ)).
Proof.
  unfold replaceMention_resume, resume_completion, resume_marks, resume_link, usable.
  destruct (truthy v && truthy_opt (getMember "avatar" v)); [|reflexivity].
  destruct (getMember "avatar" v ≫= toString) as [url|].
  - unfold bind, modify.
    destruct (toString (orElse (getMember "displayName" v) (t_handle t))) as [name|].
    + rewrite !updateImg_img_map. unfold set_document. simpl.
      now rewrite list_alter_alter_eq.
    + reflexivity.
  - unfold throw. rewrite list_alter_id by reflexivity. now rewrite page_eta.
Qed.

(** The settling of a suspended call in closed form: each part of the page
    is changed by a function of the task and the answer alone. *)
Lemma replaceMention_await_eq (t : task) (r : fetch_result) (σ : page) :
  replaceMention_await t r σ =
    (resume_completion t (awaited t r),
     Page (settle_cache t r (profileCache σ))
          (resume_marks t (awaited t r) (processedLinks σ))
          (alter (resume_link t (awaited t r)) (t_link t) (document σ))
          (network σ)
          (settle_console t r (console σ))).
Proof.
  unfold replaceMention_await, bind, awaited, settle_cache, settle_console.
  destruct (t_lookup t) as [v|]; cbn [fetchProfile_await].
  - unfold ret. now rewrite replaceMention_resume_eq.
  - rewrite fetchProfile_settle_eq, replaceMention_resume_eq.
    now destruct (failed r).
Qed.

Lemma resume_link_frame (t : task) (v : value) (k : link) :
  attrs (resume_link t v k) = attrs k ∧ ancestors (resume_link t v k) = ancestors k.
Proof.
  unfold resume_link, compose, img_map.
  destruct (usable v); [|now split].
  destruct (getMember "avatar" v ≫= toString); [|now split].
  destruct (toString _); destruct k as [a [s'|i] anc]; simpl; now split.
Qed.

Lemma resume_marks_elsewhere (t : task) (v : value) (marks : gset nat) (j : nat) :
  j ≠ t_link t → (j ∈ resume_marks t v marks ↔ j ∈ marks).
Proof.
  intros Hj. unfold resume_marks. destruct (usable v); [reflexivity|].
  rewrite elem_of_difference, elem_of_singleton. tauto.
Qed.

Lemma resume_marks_comm (t1 t2 : task) (v1 v2 : value) (marks : gset nat) :
  resume_marks t1 v1 (resume_marks t2 v2 marks) =
  resume_marks t2 v2 (resume_marks t1 v1 marks).
Proof.
  unfold resume_marks. destruct (usable v1), (usable v2); try reflexivity.
  apply set_eq. intros x. rewrite !elem_of_difference. tauto.
Qed.

End SettleFacts.

(** X9.  The order in which two suspended calls settle does not matter:
    for calls on different links that did not both send a request for the
    same identifier, either order gives the same completions and the same
    cache, marks, document and requests; only the order of the console
    warnings can differ. *)
Theorem settle_order_irrelevant (t1 t2 : task) (r1 r2 : fetch_result) (σ : page) :
  t_link t1 ≠ t_link t2 →
  (t_lookup t1 = Requested → t_lookup t2 = Requested → t_handle t1 ≠ t_handle t2) →
  let σ12 := snd (replaceMention_await t2 r2 (snd (replaceMention_await t1 r1 σ))) in
  let σ21 := snd (replaceMention_await t1 r1 (snd (replaceMention_await t2 r2 σ))) in
  same_but_console σ12 σ21 ∧
  fst (replaceMention_await t1 r1 σ) =
    fst (replaceMention_await t1 r1 (snd (replaceMention_await t2 r2 σ))) ∧
  fst (replaceMention_await t2 r2 σ) =
    fst (replaceMention_await t2 r2 (snd (replaceMention_await t1 r1 σ))).
Proof.
  intros Hl Hh. cbn zeta. rewrite !replaceMention_await_eq. cbn [fst snd].
  split; [|split; reflexivity].
  unfold same_but_console. cbn [profileCache processedLinks document network].
  repeat split.
  - unfold settle_cache.
    destruct (t_lookup t1) eqn:E1, (t_lookup t2) eqn:E2; try reflexivity.
    apply insert_insert_ne. intros Heq. now apply (Hh eq_refl eq_refl).
  - apply resume_marks_comm.
  - now apply list_alter_alter_ne.
Qed.

Lemma settle_order_irrelevant_witness :
  let t1 := Task 0 "alice.test" "@alice.test" Requested in
  let t2 := Task 2 "bob.test" "@bob" Requested in
  let r1 := Response 200 (Some Sample.alice_record) in
  same_but_console
    (snd (replaceMention_await t2 NetworkError (snd (replaceMention_await t1 r1 Sample.feed))))
    (snd (replaceMention_await t1 r1 (snd (replaceMention_await t2 NetworkError Sample.feed)))).
Proof.
  intros t1 t2 r1.
  refine (proj1 (settle_order_irrelevant t1 t2 r1 NetworkError Sample.feed _ _)).
  - discriminate.
  - intros _ _. discriminate.
Defined.

Section FrameFacts.

Lemma touched_refl (l : nat) (σ : page) : only_link_touched l σ σ.
Proof. repeat split; tauto. Qed.

Lemma touched_trans (l : nat) (σ1 σ2 σ3 : page) :
  only_link_touched l σ1 σ2 → only_link_touched l σ2 σ3 → only_link_touched l σ1 σ3.
Proof.
  intros (H1 & F1 & L1) (H2 & F2 & L2). repeat split.
  - destruct (H1 j H), (H2 j H). congruence.
  - destruct (H1 j H), (H2 j H). tauto.
  - destruct (H1 j H), (H2 j H). tauto.
  - intros j. now rewrite F2, F1.
  - congruence.
Qed.

(** A page that differs from [σ] in link [l], kept in its frame, in the
    mark of [l], and in cache, requests and console. *)
Lemma touched_page (l : nat) (σ : page) (cache : gmap string value) (marks : gset nat)
    (f : link → link) (net con : list string) :
  (∀ j, j ≠ l → (j ∈ marks ↔ j ∈ processedLinks σ)) →
  (∀ k, attrs (f k) = attrs k ∧ ancestors (f k) = ancestors k) →
  only_link_touched l σ (Page cache marks (alter f l (document σ)) net con).
Proof.
  intros Hm Hf. repeat split; simpl.
  - now apply list_lookup_alter_ne.
  - now apply Hm.
  - now apply Hm.
  - intros j. apply (frameOf_alter j l f σ Hf).
  - apply length_alter.
Qed.

Lemma marks_add_elsewhere (l j : nat) (marks : gset nat) :
  j ≠ l → (j ∈ {[l]} ∪ marks ↔ j ∈ marks).
Proof. intros Hj. rewrite elem_of_union, elem_of_singleton. tauto. Qed.

Lemma marks_remove_elsewhere (l j : nat) (marks : gset nat) :
  j ≠ l → (j ∈ marks ∖ {[l]} ↔ j ∈ marks).
Proof. intros Hj. rewrite elem_of_difference, elem_of_singleton. tauto. Qed.

Lemma img_map_frame (f : img → img) (k : link) :
  attrs (img_map f k) = attrs k ∧ ancestors (img_map f k) = ancestors k.
Proof. unfold img_map. destruct k as [a [s|i] anc]; now split. Qed.

(** What the synchronous part of a call does, whatever the link. *)
Lemma replaceMention_call_effects (l : nat) (σ : page) :
  profileCache (snd (replaceMention_call l σ)) = profileCache σ ∧
  console (snd (replaceMention_call l σ)) = console σ ∧
  only_link_touched l σ (snd (replaceMention_call l σ)) ∧
  (∀ j, j ∈ processedLinks σ → j ∈ processedLinks (snd (replaceMention_call l σ))) ∧
  (is_Some (document σ !! l) → l ∈ processedLinks (snd (replaceMention_call l σ))) ∧
  match fst (replaceMention_call l σ) with
  | None => network (snd (replaceMention_call l σ)) = network σ
  | Some t =>
      t_link t = l ∧
      network (snd (replaceMention_call l σ)) = network σ ++ requests [t] ∧
      (t_lookup t = Requested ↔ profileCache σ !! t_handle t = None)
  end.
Proof.
  unfold replaceMention_call.
  destruct (document σ !! l) as [k|] eqn:Hk.
  2:{ cbn [fst snd].
      refine (conj eq_refl (conj eq_refl (conj (touched_refl l σ) (conj _ (conj _ eq_refl)))));
        [tauto | intros [? ?]; discriminate]. }
  destruct (bool_decide (l ∈ processedLinks σ)) eqn:Hb.
  { apply bool_decide_eq_true in Hb. cbn [fst snd].
    refine (conj eq_refl (conj eq_refl (conj (touched_refl l σ) (conj _ (conj _ eq_refl)))));
      tauto. }
  assert (∀ j, j ∈ processedLinks σ → j ∈ {[l]} ∪ processedLinks σ) as Hup
    by (intros j; apply elem_of_union_r).
  assert (l ∈ {[l]} ∪ processedLinks σ) as Hl
    by (apply elem_of_union_l; now apply elem_of_singleton).
  assert (only_link_touched l σ (set_processedLinks (λ s, {[l]} ∪ s) σ)) as Hmark.
  { replace (set_processedLinks (λ s, {[l]} ∪ s) σ)
      with (Page (profileCache σ) ({[l]} ∪ processedLinks σ)
                 (alter id l (document σ)) (network σ) (console σ))
      by (now rewrite list_alter_id).
    apply touched_page; [intros j Hj; now apply marks_add_elsewhere | now split]. }
  destruct (extractHandle k) as [h|] eqn:Hx.
  2:{ cbn [fst snd].
      exact (conj eq_refl (conj eq_refl (conj Hmark (conj Hup (conj (λ _, Hl) eq_refl))))). }
  destruct (isEmpty h).
  { cbn [fst snd].
    exact (conj eq_refl (conj eq_refl (conj Hmark (conj Hup (conj (λ _, Hl) eq_refl))))). }
  assert (∀ net, only_link_touched l σ
            (Page (profileCache σ) ({[l]} ∪ processedLinks σ)
                  (alter (λ k0, Link (attrs k0) (Avatar (placeholder (textContent k)))
                                     (ancestors k0)) l (document σ))
                  net (console σ))) as Hswap.
  { intros net. apply touched_page;
      [intros j Hj; now apply marks_add_elsewhere | now split]. }
  unfold fetchProfile_call, setChildren, set_document, set_processedLinks.
  cbn [profileCache].
  destruct (profileCache σ !! h) as [v|] eqn:Hc; cbn [fst snd t_link t_lookup t_handle].
  - refine (conj eq_refl (conj eq_refl (conj (Hswap _) (conj Hup (conj (λ _, Hl) _))))).
    split; [reflexivity|]. split; [simpl; now rewrite app_nil_r|].
    split; [discriminate | congruence].
  - refine (conj eq_refl (conj eq_refl (conj (Hswap _) (conj Hup (conj (λ _, Hl) _))))).
    split; [reflexivity|]. split; [reflexivity|]. now split.
Qed.

Lemma replaceMention_await_touched (t : task) (r : fetch_result) (σ : page) :
  only_link_touched (t_link t) σ (snd (replaceMention_await t r σ)).
Proof.
  rewrite replaceMention_await_eq. cbn [snd]. apply touched_page.
  - intros j Hj. now apply resume_marks_elsewhere.
  - apply resume_link_frame.
Qed.

Lemma replaceMention_touched (l : nat) (r : fetch_result) (σ : page) :
  only_link_touched l σ (snd (replaceMention l r σ)).
Proof.
  unfold replaceMention.
  destruct (replaceMention_call_effects l σ) as (_ & _ & Hcall & _ & _ & Ht).
  destruct (replaceMention_call l σ) as [[t|] σ1]; cbn [fst snd] in *; [|exact Hcall].
  destruct Ht as (Hl & _). eapply touched_trans; [exact Hcall|].
  rewrite <- Hl. apply replaceMention_await_touched.
Qed.

Lemma fire_touched (l : nat) (ev : img_event) (σ : page) :
  only_link_touched l σ (fire l ev σ).
Proof.
  rewrite fire_childrenOf.
  destruct (childrenOf l σ) as [[s|i]|]; destruct ev; try apply touched_refl.
  - destruct (onload i); [|apply touched_refl]. rewrite updateImg_img_map.
    apply (touched_page l σ _ _ (img_map _)); [tauto | apply img_map_frame].
  - destruct (onerror i) as [text|]; [|apply touched_refl].
    apply (touched_page l σ _ _ (λ k0, Link (attrs k0) _ (ancestors k0)));
      [intros j Hj; now apply marks_remove_elsewhere | now split].
Qed.

Lemma no_nested_anchors_lookup (σ : page) :
  no_nested_anchors σ = true ↔
  ∀ j a anc, frameOf j σ = Some (a, anc) →
             forallb (λ e, negb (String.eqb (tagName e) "a")) anc = true.
Proof.
  unfold no_nested_anchors, frameOf. rewrite forallb_forall. split.
  - intros H j a anc Hj. destruct (document σ !! j) as [k|] eqn:Hk; [|discriminate].
    injection Hj as <- <-. apply H. apply list_elem_of_In. eapply list_elem_of_lookup_2, Hk.
  - intros H k Hin. apply list_elem_of_In, list_elem_of_lookup_1 in Hin as [j Hj].
    apply (H j (attrs k)). now rewrite Hj.
Qed.

(** The lifecycle keeps anchors out of anchors. *)
Lemma touched_flat (l : nat) (σ σ' : page) :
  only_link_touched l σ σ' → no_nested_anchors σ = true → no_nested_anchors σ' = true.
Proof.
  intros (_ & Hfr & _). rewrite !no_nested_anchors_lookup.
  intros H j a anc Hj. apply (H j a). now rewrite <- Hfr.
Qed.

End FrameFacts.

(** X10.  On a page where no anchor lies inside another, each lifecycle
    mutates only its own element: whatever the link, the answer and the
    image event, every other link of the document and every other mark is
    as before, no anchor is added or removed, and the attributes and
    ancestors of the link itself are never changed.  (With an anchor inside
    the link the assignments of lines 140 and 162 would remove it.) *)
Theorem lifecycle_only_own_link (l : nat) (r : fetch_result) (ev : option img_event) (σ : page) :
  no_nested_anchors σ = true →
  only_link_touched l σ (lifecycle l r ev σ) ∧
  no_nested_anchors (lifecycle l r ev σ) = true.
Proof.
  intros Hflat.
  assert (only_link_touched l σ (lifecycle l r ev σ)) as Ht.
  { unfold lifecycle. destruct ev as [e|]; [|apply replaceMention_touched].
    eapply touched_trans; [apply replaceMention_touched | apply fire_touched]. }
  split; [exact Ht|]. now apply (touched_flat l σ).
Qed.

Lemma lifecycle_only_own_link_witness :
  document (lifecycle 0 NetworkError None Sample.feed) !! 1 = Some Sample.nobody ∧
  length (document (lifecycle 0 NetworkError None Sample.feed)) = 3.
Proof.
  destruct (lifecycle_only_own_link 0 NetworkError None Sample.feed eq_refl)
    as ((Hother & _ & Hlen) & _).
  split; [|exact Hlen].
  destruct (Hother 1) as [Hd _]; [discriminate | exact Hd].
Defined.

(** ** Scheduler *)

Section DispatchFacts.

Lemma forEach_cons (l : nat) (rest : list nat) (σ : page) :
  forEach_replaceMention (l :: rest) σ =
    (match fst (replaceMention_call l σ) with
     | Some t => t :: fst (forEach_replaceMention rest (snd (replaceMention_call l σ)))
     | None => fst (forEach_replaceMention rest (snd (replaceMention_call l σ)))
     end,
     snd (forEach_replaceMention rest (snd (replaceMention_call l σ)))).
Proof.
  cbn [forEach_replaceMention]. destruct (replaceMention_call l σ) as [t σ1].
  cbn [fst snd]. now destruct (forEach_replaceMention rest σ1).
Qed.

Lemma requests_cons (t : task) (ts : list task) :
  requests (t :: ts) = requests [t] ++ requests ts.
Proof. unfold requests. simpl. now rewrite app_nil_r. Qed.

(** What the deferred callback does, whatever the batch. *)
Lemma forEach_effects (batch : list nat) (σ : page) :
  profileCache (snd (forEach_replaceMention batch σ)) = profileCache σ ∧
  console (snd (forEach_replaceMention batch σ)) = console σ ∧
  network (snd (forEach_replaceMention batch σ)) =
    network σ ++ requests (fst (forEach_replaceMention batch σ)) ∧
  (∀ j, j ∈ processedLinks σ → j ∈ processedLinks (snd (forEach_replaceMention batch σ))) ∧
  (∀ l, In l batch → is_Some (document σ !! l) →
        l ∈ processedLinks (snd (forEach_replaceMention batch σ))) ∧
  (∀ j, ¬ In j batch →
        document (snd (forEach_replaceMention batch σ)) !! j = document σ !! j ∧
        (j ∈ processedLinks (snd (forEach_replaceMention batch σ)) ↔ j ∈ processedLinks σ)) ∧
  length (document (snd (forEach_replaceMention batch σ))) = length (document σ) ∧
  (∀ t, In t (fst (forEach_replaceMention batch σ)) →
        In (t_link t) batch ∧
        (t_lookup t = Requested ↔ profileCache σ !! t_handle t = None)).
Proof.
  revert σ. induction batch as [|l rest IH]; intros σ.
  - cbn [forEach_replaceMention fst snd requests flat_map].
    rewrite app_nil_r.
    repeat split; simpl; intros; try reflexivity; try tauto; exfalso; assumption.
  - rewrite forEach_cons. cbn [fst snd].
    destruct (replaceMention_call_effects l σ) as (Hc & Hk & (Ho & _ & Hlen) & Hup & Hl & Ht).
    set (σ1 := snd (replaceMention_call l σ)) in *.
    destruct (IH σ1) as (Hc' & Hk' & Hn' & Hup' & Hl' & Ho' & Hlen' & Ht').
    split; [congruence|]. split; [congruence|]. split; [|split; [|split; [|split; [|split]]]].
    + rewrite Hn'. destruct (fst (replaceMention_call l σ)) as [t|].
      * destruct Ht as (_ & -> & _).
        now rewrite (requests_cons t (fst (forEach_replaceMention rest σ1))), app_assoc.
      * now rewrite Ht.
    + intros j Hj. now apply Hup', Hup.
    + intros j [<- | Hj] Hs; [now apply Hup', Hl|].
      apply Hl'; [exact Hj|].
      apply lookup_lt_is_Some. apply lookup_lt_is_Some in Hs. lia.
    + intros j Hj. assert (j ≠ l) as Hne by (intros ->; apply Hj; now left).
      assert (¬ In j rest) as Hr by (intros H; apply Hj; now right).
      destruct (Ho' j Hr) as [Hd Hm]. destruct (Ho j Hne) as [Hd0 Hm0].
      split; [congruence | tauto].
    + congruence.
    + intros t Hin.
      assert (∀ t, In t (fst (forEach_replaceMention rest σ1)) →
                   In (t_link t) (l :: rest) ∧
                   (t_lookup t = Requested ↔ profileCache σ !! t_handle t = None)) as Hrest.
      { intros t' Hin'. destruct (Ht' t' Hin') as [H1 H2]. rewrite Hc in H2.
        split; [now right | exact H2]. }
      destruct (fst (replaceMention_call l σ)) as [t0|]; [|now apply Hrest].
      destruct Hin as [<- | Hin]; [|now apply Hrest].
      destruct Ht as (Hl0 & _ & Hlk). split; [now left | exact Hlk].
Qed.



End DispatchFacts.



(** X12.  A scan that follows the deferred callback of the previous scan,
    with nothing settled in between, finds nothing to do: every link of the
    batch is marked, also those whose identifier could not be extracted,
    and the links outside the batch are as ineligible as before. *)
Theorem rescan_after_dispatch_is_empty (σ : page) :
  mentionsToProcess (snd (forEach_replaceMention (mentionsToProcess σ) σ)) = [] ∧
  processMentions (snd (forEach_replaceMention (mentionsToProcess σ) σ)) = None.
Proof.
  assert (mentionsToProcess (snd (forEach_replaceMention (mentionsToProcess σ) σ)) = [])
    as Hempty.
  { destruct (forEach_effects (mentionsToProcess σ) σ)
      as (_ & _ & _ & _ & Hl & Ho & Hlen & _).
    destruct (mentionsToProcess (snd (forEach_replaceMention (mentionsToProcess σ) σ)))
      as [|l rest] eqn:Hscan; [reflexivity|]. exfalso.
    assert (In l (mentionsToProcess (snd (forEach_replaceMention (mentionsToProcess σ) σ))))
      as Hin by (rewrite Hscan; now left).
    apply mentionsToProcess_In in Hin as (k & Hk & Hm & Hn & Hme & Hpost).
    destruct (in_dec Nat.eq_dec l (mentionsToProcess σ)) as [Hb | Hb].
    - apply Hn, Hl; [exact Hb|].
      apply lookup_lt_is_Some. rewrite <- Hlen. apply lookup_lt_is_Some. now exists k.
    - destruct (Ho l Hb) as [Hd Hmk]. apply Hb, mentionsToProcess_In.
      exists k. rewrite <- Hd. repeat split; try assumption. now rewrite <- Hmk. }
  split; [exact Hempty|]. unfold processMentions. now rewrite Hempty.
Qed.

Section BatchFacts.

Lemma seq_sorted (a n : nat) : StronglySorted lt (seq a n).
Proof.
  revert a. induction n as [|n IH]; intros a; simpl; constructor.
  - apply IH.
  - apply List.Forall_forall. intros x Hx%in_seq. lia.
Qed.

Lemma filter_sorted {A : Type} (R : A → A → Prop) (f : A → bool) (l : list A) :
  StronglySorted R l → StronglySorted R (List.filter f l).
Proof.
  induction 1 as [|a l Hs IH Hall]; simpl; [constructor|].
  destruct (f a); [|exact IH]. constructor; [exact IH|].
  rewrite List.Forall_forall in *. intros x Hx%filter_In. now apply Hall.
Qed.

End BatchFacts.

(** X13.  The batch of a scan lists, in document order and each once,
    exactly the anchors that match the profile query, are not marked, are
    mentions and are in scope; and a callback is queued, with that very
    batch, exactly when the batch is not empty. *)
Theorem processMentions_batch (σ : page) :
  StronglySorted lt (mentionsToProcess σ) ∧
  (∀ l, In l (mentionsToProcess σ) ↔
        ∃ k, document σ !! l = Some k ∧ matches profileLink (self k) = true ∧
             (l ∉ processedLinks σ) ∧ isMention k = true ∧ isInPost k = true) ∧
  (processMentions σ = None ↔ mentionsToProcess σ = []) ∧
  (∀ batch, processMentions σ = Some batch ↔
            batch = mentionsToProcess σ ∧ batch ≠ []).
Proof.
  split; [|split; [|split]].
  - unfold mentionsToProcess, querySelectorAll.
    apply filter_sorted, filter_sorted, seq_sorted.
  - intros l. apply mentionsToProcess_In.
  - unfold processMentions. destruct (mentionsToProcess σ); simpl.
    + split; reflexivity.
    + split; discriminate.
  - intros batch. unfold processMentions. destruct (mentionsToProcess σ) as [|l rest]; simpl.
    + split; [discriminate | intros [-> H]; now contradiction H].
    + split; [intros [= <-]; split; [reflexivity | discriminate] | now intros [-> _]].
Qed.

Lemma processMentions_batch_witness :
  processMentions Sample.feed = Some (mentionsToProcess Sample.feed) ∧
  ¬ In 2 (mentionsToProcess Sample.feed).
Proof.
  destruct (processMentions_batch Sample.feed) as (_ & Hin & _ & Hbatch).
  split.
  - apply Hbatch. split; [reflexivity|]. intros Hnil.
    assert (In 0 (mentionsToProcess Sample.feed)) as H0.
    { apply Hin. exists Sample.alice. repeat split; [set_solver]. }
    rewrite Hnil in H0. exact H0.
  - intros H2. apply Hin in H2 as (k & Hk & _ & _ & _ & Hpost).
    injection Hk as <-. discriminate Hpost.
Defined.

(** X14.  The visual states of the image, for a lookup that yields a
    usable avatar.  While the lookup is pending the link holds the loading
    image, which carries no handler: neither a load nor an error event
    changes the page.  The call then completes or throws.  If it completes,
    the loading class is gone, the source is the avatar as a string and the
    alternative text is still the original text; a load event then adds the
    loaded class, and a second load event changes nothing more.  If it
    throws, which it does before the class is removed and the handlers are
    installed, the image keeps both classes and the original tooltip, and
    no event changes the page. *)
Theorem image_visual_states
    (σ : page) (l : nat) (k : link) (h : string) (r : fetch_result) (profile : value) :
  document σ !! l = Some k → l ∉ processedLinks σ → extractHandle k = Some h →
  fst (fetchProfile h r σ) = Normal profile →
  usable profile = true →
  let σ0 := snd (replaceMention_call l σ) in
  let σ1 := snd (replaceMention l r σ) in
  (childrenOf l σ0 = Some (Avatar (loading_img (textContent k))) ∧
   ∀ ev, fire l ev σ0 = σ0) ∧
  (fst (replaceMention l r σ) = Normal tt ∨ fst (replaceMention l r σ) = Throw TypeError) ∧
  (fst (replaceMention l r σ) = Normal tt →
   (∃ i, childrenOf l σ1 = Some (Avatar i) ∧
         classList i = ["bppi-avatar"] ∧ alt i = textContent k ∧
         src i = getMember "avatar" profile ≫= toString) ∧
   (∃ i, childrenOf l (fire l Load σ1) = Some (Avatar i) ∧
         classList i = ["bppi-avatar"; "bppi-loaded"] ∧ alt i = textContent k ∧
         src i = getMember "avatar" profile ≫= toString) ∧
   fire l Load (fire l Load σ1) = fire l Load σ1) ∧
  (fst (replaceMention l r σ) = Throw TypeError →
   (∃ i, childrenOf l σ1 = Some (Avatar i) ∧
         classList i = ["bppi-avatar"; "bppi-loading"] ∧ alt i = textContent k ∧
         title i = textContent k) ∧
   ∀ ev, fire l ev σ1 = σ1).
Proof.
  intros Hk Hl Hx Hp Hu. cbn zeta.
  assert (is_Some (document (snd (fetchProfile_call h σ)) !! l)) as Hin0.
  { unfold fetchProfile_call. destruct (profileCache σ !! h); simpl; now exists k. }
  split.
  { rewrite (replaceMention_call_swap _ _ _ _ Hk Hl Hx). cbn [snd].
    split; [exact (childrenOf_swapped _ _ _ Hin0)|].
    intros ev. rewrite fire_childrenOf, (childrenOf_swapped _ _ _ Hin0). now destruct ev. }
  destruct (replaceMention_resumes l k h r σ Hk Hl Hx) as (p & lk & Hp' & Hrm).
  rewrite Hp in Hp'. injection Hp' as <-.
  assert (is_Some (document (snd (fetchProfile h r σ)) !! l)) as Hin.
  { destruct (fetchProfile_document h r σ) as [-> _]. now exists k. }
  pose proof (childrenOf_swapped l (textContent k) _ Hin) as Hsw.
  remember (swapped l (textContent k) (snd (fetchProfile h r σ))) as σs eqn:Hσs.
  clear Hσs.
  assert ((∃ url name,
             getMember "avatar" profile ≫= toString = Some url ∧
             toString (orElse (getMember "displayName" profile) h) = Some name) ∨
          (getMember "avatar" profile ≫= toString = None ∨
           toString (orElse (getMember "displayName" profile) h) = None)) as [Hok | Hbad].
  { destruct (getMember "avatar" profile ≫= toString) as [url|]; [|right; now left].
    destruct (toString (orElse (getMember "displayName" profile) h)) as [name|];
      [left; now exists url, name | right; now right]. }
  - destruct Hok as (url & name & Hav & Hdn).
    rewrite (resume_resolves (Task l h (textContent k) lk) profile url name σs Hu Hav Hdn)
      in Hrm.
    cbn [t_link t_handle t_originalText] in Hrm.
    split; [left; now rewrite Hrm|].
    split; [|rewrite Hrm; discriminate].
    intros _. rewrite Hav.
    set (label := name +:+ " (@" +:+ h +:+ ")") in *.
    assert (childrenOf l (snd (replaceMention l r σ)) =
            Some (Avatar (resolved_img url label (textContent k)))) as Hc.
    { rewrite Hrm. cbn [snd]. now rewrite !childrenOf_updateImg, Hsw. }
    set (σ1 := snd (replaceMention l r σ)) in *.
    set (loaded := λ i : img,
           {| classList := add_class "bppi-loaded" (classList i);
              alt := alt i; title := title i; src := src i;
              onload := onload i; onerror := onerror i |}).
    assert (fire l Load σ1 = updateImg l loaded σ1) as Hfire.
    { rewrite fire_childrenOf, Hc. reflexivity. }
    assert (childrenOf l (updateImg l loaded σ1) =
            Some (Avatar (loaded (resolved_img url label (textContent k))))) as Hc2.
    { now rewrite childrenOf_updateImg, Hc. }
    split; [|split].
    + eexists. split; [exact Hc|]. repeat split; reflexivity.
    + rewrite Hfire. eexists. split; [exact Hc2|]. repeat split; reflexivity.
    + rewrite Hfire at 1 2. rewrite fire_childrenOf, Hc2.
      change (onload (loaded _)) with true. cbv iota.
      rewrite !updateImg_img_map. unfold set_document. cbn [document profileCache
        processedLinks network console]. f_equal.
      rewrite list_alter_alter_eq. apply list_alter_ext; [|reflexivity].
      intros x Hlx. unfold childrenOf in Hc. rewrite Hlx in Hc. simpl in Hc.
      injection Hc as Hc. unfold compose, img_map. rewrite Hc. simpl. reflexivity.
  - destruct (resume_throws (Task l h (textContent k) lk) profile σs Hu Hbad)
      as (σ' & Hthrow & Hσ').
    rewrite Hthrow in Hrm. cbn [t_link] in Hσ'.
    split; [right; now rewrite Hrm|].
    split; [rewrite Hrm; discriminate|].
    intros _. rewrite Hrm. cbn [snd].
    assert (∃ i, childrenOf l σ' = Some (Avatar i) ∧
                 classList i = ["bppi-avatar"; "bppi-loading"] ∧
                 alt i = textContent k ∧ title i = textContent k ∧
                 onload i = false ∧ onerror i = None) as (i & Hc & Hcl & Halt & Hti & Hon & Her).
    { destruct Hσ' as [-> | [u ->]].
      - eexists. split; [exact Hsw|]. repeat split; reflexivity.
      - rewrite childrenOf_updateImg, Hsw. eexists. split; [reflexivity|].
        repeat split; reflexivity. }
    split; [exists i; repeat split; assumption|].
    intros ev. rewrite fire_childrenOf, Hc, Hon, Her. now destruct ev.
Qed.

Lemma image_visual_states_witness :
  let r := Response 200 (Some Sample.alice_record) in
  ∃ i, childrenOf 0 (fire 0 Load (snd (replaceMention 0 r Sample.feed))) = Some (Avatar i) ∧
       classList i = ["bppi-avatar"; "bppi-loaded"] ∧ alt i = "@alice.test" ∧
       src i = Some "https://x/img.jpg".
Proof.
  intros r.
  destruct (image_visual_states Sample.feed 0 Sample.alice "alice.test" r
              Sample.alice_record) as (_ & _ & Hdone & _).
  - reflexivity.
  - set_solver.
  - reflexivity.
  - reflexivity.
  - reflexivity.
  - exact (proj1 (proj2 (Hdone eq_refl))).
Defined.

(** ** Watcher *)

Section DebounceFacts.

Lemma tidy_started : tidy started.
Proof. split; [discriminate | now left]. Qed.

Lemma tidy_fire_due (now : nat) (τ : timers) : tidy τ → tidy (fire_due now τ).
Proof.
  intros [Hn [Hp | (id & due & Hp & Ht & Hid)]]; (split; [exact Hn|]).
  - left. unfold fire_due. simpl. now rewrite Hp.
  - unfold fire_due. simpl. rewrite Hp. simpl.
    destruct (due <=? now); simpl; [now left | right; now exists id, due].
Qed.

Lemma tidy_observe (now : nat) (ms : list mutation) (τ : timers) :
  tidy τ → tidy (observe now ms τ).
Proof.
  intros [Hn Hp]. destruct (shouldProcess ms) eqn:Hs.
  - destruct (observe_rearms now ms τ Hs Hp) as (Hp' & Ht' & Hn').
    split; [rewrite Hn'; discriminate|]. right. now exists (next_id τ), (now + 100).
  - unfold observe. rewrite Hs. now split.
Qed.

Lemma tidy_timers_after (batches : list (nat * list mutation)) (τ : timers) :
  tidy τ → tidy (timers_after batches τ).
Proof.
  revert τ. induction batches as [|[now ms] rest IH]; intros τ Ht; simpl; [exact Ht|].
  now apply IH, tidy_observe, tidy_fire_due.
Qed.

Lemma due_by_partition (now : nat) (τ : timers) :
  length (due_by now τ) + length (pending (fire_due now τ)) = length (pending τ).
Proof.
  unfold due_by, fire_due. simpl. rewrite length_map.
  induction (pending τ) as [|p l IH]; simpl; [reflexivity|].
  destruct (snd p <=? now); simpl; lia.
Qed.

Lemma run_bounded (batches : list (nat * list mutation)) (τ : timers) :
  tidy τ → length (run batches τ) ≤ length (pending τ) + length (qualifying batches).
Proof.
  revert τ. induction batches as [|[now ms] rest IH]; intros τ Ht; cbn [run].
  - rewrite length_map. lia.
  - rewrite length_app. pose proof (due_by_partition now τ) as Hpart.
    pose proof (tidy_fire_due now τ Ht) as Ht1.
    specialize (IH _ (tidy_observe now ms _ Ht1)).
    assert (qualifying ((now, ms) :: rest) =
            if shouldProcess ms then (now, ms) :: qualifying rest else qualifying rest)
      as -> by reflexivity.
    destruct (shouldProcess ms) eqn:Hs.
    + destruct Ht1 as [_ Hp1].
      destruct (observe_rearms now ms _ Hs Hp1) as (Hp' & _). rewrite Hp' in IH.
      cbn [length] in *. revert IH Hpart.
      generalize (length (due_by now τ))
                 (length (run rest (observe now ms (fire_due now τ))))
                 (length (pending τ)) (length (qualifying rest))
                 (length (pending (fire_due now τ))).
      intros a b c d e. lia.
    + assert (observe now ms (fire_due now τ) = fire_due now τ) as Heq
        by (unfold observe; now rewrite Hs).
      rewrite Heq in IH |- *. revert IH Hpart.
      generalize (length (due_by now τ)) (length (run rest (fire_due now τ)))
                 (length (pending τ)) (length (qualifying rest))
                 (length (pending (fire_due now τ))).
      intros a b c d e. lia.
Qed.

Lemma pending_observe (now : nat) (ms : list mutation) (τ : timers) (p : nat * nat) :
  In p (pending (observe now ms τ)) →
  In p (pending τ) ∨ (shouldProcess ms = true ∧ snd p = now + 100).
Proof.
  unfold observe. destruct (shouldProcess ms); [|now left].
  unfold setTimeout. simpl. rewrite in_app_iff. intros [H | [<- | []]].
  - left. destruct (timeout τ) as [id|]; [|exact H].
    destruct (Nat.eqb id 0); [exact H|].
    unfold clearTimeout in H. simpl in H. now apply filter_In in H.
  - right. now split.
Qed.

Lemma run_origin (batches : list (nat * list mutation)) (τ : timers) (s : nat) :
  In s (run batches τ) →
  In s (map snd (pending τ)) ∨
  ∃ t ms, In (t, ms) (qualifying batches) ∧ s = t + 100.
Proof.
  revert τ. induction batches as [|[now ms] rest IH]; intros τ; simpl; [now left|].
  rewrite in_app_iff. intros [H | H].
  - left. unfold due_by in H. apply in_map_iff in H as (p & <- & Hp%filter_In).
    apply in_map. tauto.
  - destruct (IH _ H) as [Hp | (t & ms' & Hq & ->)].
    + apply in_map_iff in Hp as (p & <- & Hp).
      apply pending_observe in Hp as [Hp | [Hs Hdue]].
      * left. unfold fire_due in Hp. simpl in Hp. apply filter_In in Hp.
        apply in_map. tauto.
      * right. exists now, ms. split; [|exact Hdue].
        unfold qualifying. simpl. rewrite Hs. now left.
    + right. exists t, ms'. split; [|reflexivity].
      unfold qualifying in *. simpl. destruct (shouldProcess ms); [now right | exact Hq].
Qed.

Lemma debounced_from_late (t0 : nat) (times : list nat) :
  Forall (λ t, t0 + 100 ≤ t) times →
  debounced_from t0 times = (t0 + 100) :: debounced times.
Proof.
  destruct times as [|t rest]; [reflexivity|]. intros Hall. simpl.
  inversion Hall; subst. now rewrite (proj2 (Nat.leb_le _ _)).
Qed.

Lemma fire_due_none (now : nat) (τ : timers) :
  Forall (λ p, now < snd p) (pending τ) → due_by now τ = [] ∧ fire_due now τ = τ.
Proof.
  intros Hall. unfold due_by, fire_due.
  assert (List.filter (λ p, snd p <=? now) (pending τ) = [] ∧
          List.filter (λ p, negb (snd p <=? now)) (pending τ) = pending τ) as [-> ->].
  { induction (pending τ) as [|p l IH]; [now split|]. inversion Hall; subst.
    simpl. rewrite (proj2 (Nat.leb_gt _ _)) by assumption. simpl.
    destruct (IH H2) as [-> ->]. now split. }
  split; [reflexivity | now destruct τ].
Qed.

Lemma observe_quiet (now : nat) (ms : list mutation) (τ : timers) :
  shouldProcess ms = false → observe now ms τ = τ.
Proof. intros Hs. unfold observe. now rewrite Hs. Qed.

(** The runs of [processMentions] from a state with no timer pending, and
    from one whose timer was set at [t0]. *)
Lemma run_debounced (batches : list (nat * list mutation)) :
  ∀ τ, next_id τ ≠ 0 →
    (pending τ = [] → StronglySorted le (map fst batches) →
     run batches τ = debounced (map fst (qualifying batches))) ∧
    (∀ t0 id, pending τ = [(id, t0 + 100)] → timeout τ = Some id → id ≠ 0 →
              StronglySorted le (t0 :: map fst batches) →
              run batches τ = debounced_from t0 (map fst (qualifying batches))).
Proof.
  induction batches as [|[now ms] rest IH]; intros τ Hnext.
  { split; [intros Hp _ | intros t0 id Hp _ _ _]; simpl; now rewrite Hp. }
  assert (Hq : qualifying ((now, ms) :: rest) =
               if shouldProcess ms then (now, ms) :: qualifying rest else qualifying rest)
    by reflexivity.
  split.
  - intros Hp Hsort. cbn [map fst] in Hsort.
    apply StronglySorted_inv in Hsort as [Hsort Hall].
    cbn [run]. destruct (fire_due_none now τ) as [-> ->]; [rewrite Hp; constructor|].
    cbn [app]. rewrite Hq. destruct (shouldProcess ms) eqn:Hs.
    + destruct (observe_rearms now ms τ Hs) as (Hp' & Ht' & Hn'); [now left|].
      cbn [map fst debounced].
      apply (proj2 (IH (observe now ms τ) ltac:(rewrite Hn'; discriminate)) now (next_id τ));
        try assumption. now constructor.
    + rewrite (observe_quiet now ms _ Hs). now apply (IH τ Hnext).
  - intros t0 id Hp Ht Hid Hsort.
    apply StronglySorted_inv in Hsort as [Hsort Hall]. cbn [map fst] in Hsort, Hall.
    assert (t0 ≤ now) as Hle by (now inversion Hall).
    apply StronglySorted_inv in Hsort as [Hsort Hafter].
    cbn [run]. rewrite Hq.
    destruct (t0 + 100 <=? now) eqn:Hdue.
    + assert (due_by now τ = [t0 + 100]) as ->.
      { unfold due_by. rewrite Hp. simpl. now rewrite Hdue. }
      assert (pending (fire_due now τ) = []) as Hp1.
      { unfold fire_due. rewrite Hp. simpl. now rewrite Hdue. }
      cbn [app]. destruct (shouldProcess ms) eqn:Hs.
      * destruct (observe_rearms now ms (fire_due now τ) Hs) as (Hp' & Ht' & Hn');
          [now left|].
        cbn [map fst debounced_from]. rewrite Hdue. f_equal.
        apply (proj2 (IH (observe now ms (fire_due now τ))
                         ltac:(rewrite Hn'; discriminate)) now (next_id (fire_due now τ)));
          try assumption. now constructor.
      * rewrite (observe_quiet now ms _ Hs). rewrite debounced_from_late.
        -- f_equal. now apply (IH (fire_due now τ) Hnext).
        -- apply Nat.leb_le in Hdue. rewrite List.Forall_forall in *.
           intros t Hin. apply in_map_iff in Hin as ([t' ms'] & <- & Hin%filter_In).
           assert (now ≤ t') by (apply Hafter, (in_map fst _ _ (proj1 Hin))).
           simpl. lia.
    + apply Nat.leb_gt in Hdue.
      destruct (fire_due_none now τ) as [-> ->];
        [rewrite Hp; repeat constructor; simpl; lia|].
      cbn [app]. destruct (shouldProcess ms) eqn:Hs.
      * destruct (observe_rearms now ms τ Hs) as (Hp' & Ht' & Hn');
          [right; now exists id, (t0 + 100)|].
        cbn [map fst debounced_from]. rewrite (proj2 (Nat.leb_gt _ _) Hdue).
        apply (proj2 (IH (observe now ms τ) ltac:(rewrite Hn'; discriminate)) now (next_id τ));
          try assumption. now constructor.
      * rewrite (observe_quiet now ms _ Hs). apply (proj2 (IH τ Hnext) t0 id); try assumption.
        constructor; [exact Hsort | now inversion Hall].
Qed.

End DebounceFacts.

(** X15.  The debounce in full: for batches delivered in time order, a scan
    runs 100 ms after each qualifying batch that no other qualifying batch
    follows within less than 100 ms, and at no other time; batches of
    removals change nothing. *)
Theorem scans_are_debounced (batches : list (nat * list mutation)) :
  StronglySorted le (map fst batches) →
  run batches started = debounced (map fst (qualifying batches)).
Proof.
  intros Hsort. now apply (proj1 (run_debounced batches started ltac:(discriminate))).
Qed.

Lemma scans_are_debounced_witness :
  run [(0, [Mutation 1 0]); (50, [Mutation 2 0]); (120, [Mutation 0 4]);
       (150, [Mutation 1 1]); (400, [Mutation 3 0])] started = [150; 250; 500].
Proof.
  rewrite scans_are_debounced; [reflexivity|].
  simpl. repeat constructor; lia.
Defined.

(** X16.  Whatever batches arrive and whenever, also out of order: at most
    one timer is pending at any time, and it is the one
    [setupObserver.timeout] names; the scans never outnumber the qualifying
    batches; and every scan runs 100 ms after some qualifying batch. *)
Theorem timer_discipline (batches : list (nat * list mutation)) :
  length (pending (timers_after batches started)) ≤ 1 ∧
  (∀ id due, In (id, due) (pending (timers_after batches started)) →
             timeout (timers_after batches started) = Some id) ∧
  length (run batches started) ≤ length (qualifying batches) ∧
  (∀ s, In s (run batches started) →
        ∃ t ms, In (t, ms) (qualifying batches) ∧ s = t + 100).
Proof.
  destruct (tidy_timers_after batches started tidy_started)
    as [_ [Hp | (id & due & Hp & Ht & _)]].
  - rewrite Hp. split; [simpl; lia|]. split; [intros ? ? []|].
    split; [apply (run_bounded batches started tidy_started)|].
    intros s Hs. destruct (run_origin batches started s Hs) as [[] | H]. exact H.
  - rewrite Hp. split; [simpl; lia|].
    split; [intros id' due' [[= <- <-] | []]; exact Ht|].
    split; [apply (run_bounded batches started tidy_started)|].
    intros s Hs. destruct (run_origin batches started s Hs) as [[] | H]. exact H.
Qed.

Lemma timer_discipline_witness :
  let batches := [(300, [Mutation 1 0]); (10, [Mutation 2 0]); (20, [Mutation 0 1])] in
  length (pending (timers_after batches started)) ≤ 1 ∧
  length (run batches started) ≤ 2.
Proof.
  intros batches.
  destruct (timer_discipline batches) as (Hone & _ & Hfew & _).
  split; [exact Hone | exact Hfew].
Defined.

(** ** Renderer: what a cached or ill-typed record leads to *)

(** X17.  A call throws exactly when the record has a usable avatar and
    the avatar, or the name for the title, cannot be turned into a string.
    The element is then stuck: whatever event its image gets, it keeps the
    placeholder, stays marked and is in no later batch. *)
Theorem throwing_record_sticks
    (σ : page) (l : nat) (k : link) (h : string) (r : fetch_result) (profile : value) :
  document σ !! l = Some k → l ∉ processedLinks σ → extractHandle k = Some h →
  fst (fetchProfile h r σ) = Normal profile →
  (fst (replaceMention l r σ) = Throw TypeError ↔
   usable profile = true ∧
   (getMember "avatar" profile ≫= toString = None ∨
    toString (orElse (getMember "displayName" profile) h) = None)) ∧
  (fst (replaceMention l r σ) = Throw TypeError →
   ∀ ev, (∃ i, childrenOf l (lifecycle l r ev σ) = Some (Avatar i)) ∧
         l ∈ processedLinks (lifecycle l r ev σ) ∧
         ¬ In l (mentionsToProcess (lifecycle l r ev σ))).
Proof.
  intros Hk Hl Hx Hp.
  destruct (replaceMention_resumes l k h r σ Hk Hl Hx) as (p & lk & Hp' & Hrm).
  rewrite Hp in Hp'. injection Hp' as <-.
  assert (fst (replaceMention l r σ) = Throw TypeError ↔
          usable profile = true ∧
          (getMember "avatar" profile ≫= toString = None ∨
           toString (orElse (getMember "displayName" profile) h) = None)) as Hiff.
  { rewrite Hrm, replaceMention_resume_eq. cbn [fst].
    unfold resume_completion. cbn [t_handle].
    destruct (usable profile); [|split; [discriminate | intros [? _]; discriminate]].
    destruct (getMember "avatar" profile ≫= toString) as [url|];
      [|split; [intros _; split; [reflexivity | now left] | reflexivity]].
    destruct (toString (orElse (getMember "displayName" profile) h)) as [name|].
    + split; [discriminate | intros [_ [? | ?]]; discriminate].
    + split; [intros _; split; [reflexivity | now right] | reflexivity]. }
  split; [exact Hiff|].
  intros Hthrow ev. destruct (proj1 Hiff Hthrow) as [Hu _].
  destruct (lifecycle_outcome l k h r ev σ Hk Hl Hx) as (p & Hp2 & _ & Hout).
  rewrite Hp in Hp2. injection Hp2 as <-.
  destruct Hout as [(_ & _ & [Hu' | [Hn _]]) | (i & Hc & Hm & _)]; [congruence..|].
  split; [now exists i|]. split; [exact Hm|].
  rewrite mentionsToProcess_In. intros (k' & _ & _ & Hn & _). now apply Hn.
Qed.

Lemma throwing_record_sticks_witness :
  let record := JObj [("avatar", JObj [("toString", JNum "1")])] in
  let r := Response 200 (Some record) in
  fst (replaceMention 0 r Sample.feed) = Throw TypeError ∧
  0 ∈ processedLinks (lifecycle 0 r (Some Error) Sample.feed).
Proof.
  intros record r.
  destruct (throwing_record_sticks Sample.feed 0 Sample.alice "alice.test" r record)
    as [Hiff Hstuck]; [reflexivity | set_solver | reflexivity | reflexivity |].
  assert (fst (replaceMention 0 r Sample.feed) = Throw TypeError) as Hthrow.
  { apply Hiff. split; [reflexivity | now left]. }
  split; [exact Hthrow | exact (proj1 (proj2 (Hstuck Hthrow (Some Error))))].
Defined.


